(** * PathFinder ECE career navigator: service module and history store

    A shallow embedding of [src/services/geminiService.ts] and of the
    handlers of [App.tsx]: the history store, the form, the resume
    upload and the history cards.

    TypeScript types are erased at run time, and the three [JSON.parse]
    sites of the program hand their result on unchecked.  The embedding
    therefore works on run-time values ([json]); the declared interfaces
    ([CareerRecommendation], [ResumeData], [HistoryItem]) are records
    with an encoding into [json].

    Platform pieces the program calls are modelled after ECMAScript and
    the Web Storage API: strings are sequences of UTF-16 code units,
    [JSON.parse] and [JSON.stringify] are functions on such strings,
    [localStorage] is a finite map with a quota.  Values the environment
    chooses (the provider's answer, the UUID, the clock, the user's
    answer to [confirm], whether the browser lets the page read its
    storage) are arguments of the operations. *)

From Stdlib Require Import String Ascii.
From stdpp Require Import base option list gmap.

Local Open Scope N_scope.

(** ** Strings *)

(** A JavaScript string is a finite sequence of 16-bit code units. *)
Definition jsstring := list N.

(** The code units of an ASCII literal. *)
Definition str (s : string) : jsstring :=
  map N_of_ascii (list_ascii_of_string s).
Arguments str _%_string.

Definition dquote : N := 34.
Definition backslash : N := 92.

Definition jsstring_eqb (a b : jsstring) : bool := bool_decide (a = b).

(** ** Numbers

    A JSON number literal is kept as the decimal it denotes,
    [(-1)^neg * mant * 10^exp]; the two facts about its binary64 value
    the program can observe (it is zero, it is not finite) are decided
    on the decimal. *)
Record decimal := Decimal { d_neg : bool; d_mant : N; d_exp : Z }.

(** The literal rounds to [+0] or [-0]: its magnitude is at most
    [2^-1075], half the least subnormal. *)
Definition rounds_to_zero (d : decimal) : bool :=
  if (0 <=? d_exp d)%Z then d_mant d =? 0
  else d_mant d * 2 ^ 1075 <=? 10 ^ Z.to_N (- d_exp d).

(** The literal rounds to an infinity: its magnitude is at least
    [2^1024 - 2^970]. *)
Definition rounds_to_infinity (d : decimal) : bool :=
  if (0 <=? d_exp d)%Z
  then 2 ^ 1024 - 2 ^ 970 <=? d_mant d * 10 ^ Z.to_N (d_exp d)
  else (2 ^ 1024 - 2 ^ 970) * 10 ^ Z.to_N (- d_exp d) <=? d_mant d.

(** ** Run-time values *)

(** The values [JSON.parse] can return.  An object is the list of its
    own properties in enumeration order. *)
#[local] Unset Elimination Schemes.
Inductive json :=
| JNull
| JBool (b : bool)
| JNum (d : decimal)
| JStr (s : jsstring)
| JArr (elems : list json)
| JObj (props : list (jsstring * json)).
#[local] Set Elimination Schemes.

(** Induction on values, through the lists of an array and of an object. *)
Section json_induction.
Variable P : json -> Prop.
Hypothesis Hnull : P JNull.
Hypothesis Hbool : forall b, P (JBool b).
Hypothesis Hnum : forall d, P (JNum d).
Hypothesis Hstr : forall s, P (JStr s).
Hypothesis Harr : forall l, Forall P l -> P (JArr l).
Hypothesis Hobj : forall m, Forall (fun kv => P kv.2) m -> P (JObj m).

Fixpoint json_ind (v : json) : P v :=
  match v with
  | JNull => Hnull
  | JBool b => Hbool b
  | JNum d => Hnum d
  | JStr s => Hstr s
  | JArr l =>
      Harr l ((fix elems (l : list json) : Forall P l :=
                 match l with
                 | [] => @List.Forall_nil _ P
                 | x :: r => @List.Forall_cons _ P x r (json_ind x) (elems r)
                 end) l)
  | JObj m =>
      Hobj m ((fix props (m : list (jsstring * json))
                 : Forall (fun kv => P kv.2) m :=
                 match m with
                 | [] => @List.Forall_nil _ _
                 | kv :: r =>
                     @List.Forall_cons _ _ kv r (json_ind kv.2) (props r)
                 end) m)
  end.
End json_induction.

(** ToBoolean. *)
Definition truthy (v : json) : bool :=
  match v with
  | JNull => false
  | JBool b => b
  | JNum d => negb (rounds_to_zero d)
  | JStr s => negb (bool_decide (s = []))
  | JArr _ | JObj _ => true
  end.

(** *** Objects *)

Definition digit_val (c : N) : option N :=
  if (48 <=? c) && (c <=? 57) then Some (c - 48) else None.

Definition digits_val (s : jsstring) : option N :=
  foldl (fun acc c => a ← acc; d ← digit_val c; Some (10 * a + d)) (Some 0) s.

(** An array index: the canonical decimal form of an integer below
    [2^32 - 1]. *)
Definition array_index (k : jsstring) : option N :=
  match k with
  | [] => None
  | c :: r =>
      if (c =? 48) && negb (bool_decide (r = [])) then None
      else match digits_val k with
           | Some n => if n <? 2 ^ 32 - 1 then Some n else None
           | None => None
           end
  end.

Fixpoint prop_replace (k : jsstring) (v : json) (m : list (jsstring * json))
  : option (list (jsstring * json)) :=
  match m with
  | [] => None
  | (k', v') :: r =>
      if jsstring_eqb k k' then Some ((k, v) :: r)
      else cons (k', v') <$> prop_replace k v r
  end.

(** Where a new index key goes: before the first property that is not
    an index or is a larger index. *)
Fixpoint prop_insert_index (n : N) (k : jsstring) (v : json)
    (m : list (jsstring * json)) : list (jsstring * json) :=
  match m with
  | [] => [(k, v)]
  | (k', v') :: r =>
      match array_index k' with
      | Some n' => if n' <? n then (k', v') :: prop_insert_index n k v r
                   else (k, v) :: m
      | None => (k, v) :: m
      end
  end.

(** CreateDataProperty followed by the order of OrdinaryOwnPropertyKeys:
    an existing key keeps its place, index keys come first in ascending
    order, other keys in creation order. *)
Definition prop_set (m : list (jsstring * json)) (kv : jsstring * json)
  : list (jsstring * json) :=
  match prop_replace kv.1 kv.2 m with
  | Some m' => m'
  | None =>
      match array_index kv.1 with
      | Some n => prop_insert_index n kv.1 kv.2 m
      | None => m ++ [kv]
      end
  end.

Definition make_object (kvs : list (jsstring * json)) : json :=
  JObj (foldl prop_set [] kvs).

(** [o.k] on an object: [None] is [undefined]. *)
Fixpoint prop_get (m : list (jsstring * json)) (k : jsstring) : option json :=
  match m with
  | [] => None
  | (k', v) :: r => if jsstring_eqb k k' then Some v else prop_get r k
  end.

(** ** JSON.stringify *)

Definition is_high_surrogate (c : N) : bool := (55296 <=? c) && (c <=? 56319).
Definition is_low_surrogate (c : N) : bool := (56320 <=? c) && (c <=? 57343).

Definition hex_digit (d : N) : N := if d <? 10 then 48 + d else 87 + d.

(** UnicodeEscape: a backslash, [u] and four lower-case hex digits. *)
Definition unicode_escape (c : N) : jsstring :=
  [backslash; 117; hex_digit (c / 4096 mod 16); hex_digit (c / 256 mod 16);
   hex_digit (c / 16 mod 16); hex_digit (c mod 16)].

Definition next_is_low (s : jsstring) : bool :=
  match s with
  | c :: _ => is_low_surrogate c
  | [] => false
  end.

(** One code unit of QuoteJSONString.  [prev_high] tells whether the
    unit before is a leading surrogate, [rest] is what follows: a
    surrogate is written as it is when it belongs to a pair and escaped
    when it stands alone. *)
Definition quote_unit (prev_high : bool) (c : N) (rest : jsstring) : jsstring :=
  if c =? 8 then [backslash; 98]
  else if c =? 9 then [backslash; 116]
  else if c =? 10 then [backslash; 110]
  else if c =? 12 then [backslash; 102]
  else if c =? 13 then [backslash; 114]
  else if c =? dquote then [backslash; dquote]
  else if c =? backslash then [backslash; backslash]
  else if c <? 32 then unicode_escape c
  else if is_high_surrogate c && negb (next_is_low rest) then unicode_escape c
  else if is_low_surrogate c && negb prev_high then unicode_escape c
  else [c].

Fixpoint quote_units (prev_high : bool) (s : jsstring) : jsstring :=
  match s with
  | [] => []
  | c :: r => quote_unit prev_high c r ++ quote_units (is_high_surrogate c) r
  end.

(** QuoteJSONString. *)
Definition quote (s : jsstring) : jsstring :=
  dquote :: quote_units false s ++ [dquote].

Fixpoint uint_units (u : Decimal.uint) : jsstring :=
  match u with
  | Decimal.Nil => []
  | Decimal.D0 r => 48 :: uint_units r
  | Decimal.D1 r => 49 :: uint_units r
  | Decimal.D2 r => 50 :: uint_units r
  | Decimal.D3 r => 51 :: uint_units r
  | Decimal.D4 r => 52 :: uint_units r
  | Decimal.D5 r => 53 :: uint_units r
  | Decimal.D6 r => 54 :: uint_units r
  | Decimal.D7 r => 55 :: uint_units r
  | Decimal.D8 r => 56 :: uint_units r
  | Decimal.D9 r => 57 :: uint_units r
  end.

Definition N_units (n : N) : jsstring := uint_units (N.to_uint n).

(** A number whose binary64 value is not finite is written [null], a
    zero is written [0].  For the others a decimal literal of the same
    value is written: the digits of the parsed literal and its exponent,
    [5e-1] for a parsed [0.5] and [1e2] for a parsed [1e2], where
    Number::toString writes [0.5] and [100].  Which digits
    Number::toString picks is binary64 arithmetic and is not modelled;
    the properties below that speak of a written text are about values
    without numbers ([plain]). *)
Definition stringify_number (d : decimal) : jsstring :=
  if rounds_to_infinity d then str "null"
  else if rounds_to_zero d then str "0"
  else (if d_neg d then str "-" else [])
       ++ N_units (d_mant d)
       ++ (if (d_exp d =? 0)%Z then []
           else str "e" ++ (if (d_exp d <? 0)%Z then str "-" else [])
                ++ N_units (Z.to_N (Z.abs (d_exp d)))).

Fixpoint join_commas (parts : list jsstring) : jsstring :=
  match parts with
  | [] => []
  | [p] => p
  | p :: r => p ++ 44 :: join_commas r
  end.

(** [JSON.stringify(v)] with no replacer and no indentation. *)
Fixpoint JSON_stringify (v : json) : jsstring :=
  match v with
  | JNull => str "null"
  | JBool true => str "true"
  | JBool false => str "false"
  | JNum d => stringify_number d
  | JStr s => quote s
  | JArr l => 91 :: join_commas (map JSON_stringify l) ++ [93]
  | JObj m =>
      123 :: join_commas
               (map (fun kv => quote kv.1 ++ 58 :: JSON_stringify kv.2) m)
          ++ [125]
  end.

(** ** JSON.parse *)

Definition is_json_ws (c : N) : bool :=
  (c =? 9) || (c =? 10) || (c =? 13) || (c =? 32).

Fixpoint skip_ws (s : jsstring) : jsstring :=
  match s with
  | c :: r => if is_json_ws c then skip_ws r else s
  | [] => []
  end.

Definition hex_val (c : N) : option N :=
  if (48 <=? c) && (c <=? 57) then Some (c - 48)
  else if (97 <=? c) && (c <=? 102) then Some (c - 87)
  else if (65 <=? c) && (c <=? 70) then Some (c - 55)
  else None.

Definition hex4 (h1 h2 h3 h4 : N) : option N :=
  a ← hex_val h1; b ← hex_val h2; c ← hex_val h3; d ← hex_val h4;
  Some (((a * 16 + b) * 16 + c) * 16 + d).

(** The character an escape letter stands for. *)
Definition simple_escape (e : N) : option N :=
  if e =? dquote then Some dquote
  else if e =? backslash then Some backslash
  else if e =? 47 then Some 47
  else if e =? 98 then Some 8
  else if e =? 102 then Some 12
  else if e =? 110 then Some 10
  else if e =? 114 then Some 13
  else if e =? 116 then Some 9
  else None.

(** The characters of a string literal after its opening quote, up to
    and including the closing quote. *)
Fixpoint parse_chars (s : jsstring) : option (jsstring * jsstring) :=
  match s with
  | [] => None
  | c :: r =>
      if c =? dquote then Some ([], r)
      else if c =? backslash then
        match r with
        | [] => None
        | e :: r1 =>
            if e =? 117 then
              match r1 with
              | h1 :: h2 :: h3 :: h4 :: r2 =>
                  u ← hex4 h1 h2 h3 h4;
                  '(t, rest) ← parse_chars r2;
                  Some (u :: t, rest)
              | _ => None
              end
            else
              u ← simple_escape e;
              '(t, rest) ← parse_chars r1;
              Some (u :: t, rest)
        end
      else if c <? 32 then None
      else '(t, rest) ← parse_chars r; Some (c :: t, rest)
  end.

Fixpoint take_digits (s : jsstring) : jsstring * jsstring :=
  match s with
  | c :: r =>
      if (48 <=? c) && (c <=? 57)
      then let '(ds, rest) := take_digits r in (c :: ds, rest)
      else ([], s)
  | [] => ([], [])
  end.

Definition digits_N (ds : jsstring) : N :=
  foldl (fun acc c => 10 * acc + (c - 48)) 0 ds.

(** The integer part: a single [0], or a non-zero digit and more digits. *)
Definition parse_int (s : jsstring) : option (jsstring * jsstring) :=
  match s with
  | c :: r =>
      if c =? 48 then Some ([c], r)
      else if (49 <=? c) && (c <=? 57)
      then let '(ds, rest) := take_digits r in Some (c :: ds, rest)
      else None
  | [] => None
  end.

Definition parse_frac (s : jsstring) : option (jsstring * jsstring) :=
  match s with
  | c :: r =>
      if c =? 46 then
        match take_digits r with
        | ([], _) => None
        | (ds, rest) => Some (ds, rest)
        end
      else Some ([], s)
  | [] => Some ([], [])
  end.

Definition parse_exp_digits (neg : bool) (s : jsstring) : option (Z * jsstring) :=
  match take_digits s with
  | ([], _) => None
  | (ds, rest) =>
      let e := Z.of_N (digits_N ds) in
      Some (if neg then (- e)%Z else e, rest)
  end.

Definition parse_exp (s : jsstring) : option (Z * jsstring) :=
  match s with
  | c :: r =>
      if (c =? 101) || (c =? 69) then
        match r with
        | sg :: r' =>
            if sg =? 43 then parse_exp_digits false r'
            else if sg =? 45 then parse_exp_digits true r'
            else parse_exp_digits false r
        | [] => None
        end
      else Some (0%Z, s)
  | [] => Some (0%Z, [])
  end.

Definition parse_unsigned (neg : bool) (s : jsstring) : option (decimal * jsstring) :=
  '(ip, r1) ← parse_int s;
  '(fp, r2) ← parse_frac r1;
  '(e, r3) ← parse_exp r2;
  Some (Decimal neg (digits_N (ip ++ fp)) (e - Z.of_nat (length fp)), r3).

Definition parse_number (s : jsstring) : option (decimal * jsstring) :=
  match s with
  | c :: r => if c =? 45 then parse_unsigned true r else parse_unsigned false s
  | [] => None
  end.

Fixpoint strip_prefix (p s : jsstring) : option jsstring :=
  match p, s with
  | [], _ => Some s
  | a :: p', b :: s' => if a =? b then strip_prefix p' s' else None
  | _ :: _, [] => None
  end.

Definition parse_literal (word : jsstring) (v : json) (s : jsstring)
  : option (json * jsstring) :=
  r ← strip_prefix word s; Some (v, r).

(** A value that is not an array or an object, from its first
    character [c] on: a string, a literal or a number. *)
Definition parse_scalar (c : N) (r : jsstring) : option (json * jsstring) :=
  if c =? dquote then '(t, rest) ← parse_chars r; Some (JStr t, rest)
  else if c =? 116 then parse_literal (str "true") (JBool true) (c :: r)
  else if c =? 102 then parse_literal (str "false") (JBool false) (c :: r)
  else if c =? 110 then parse_literal (str "null") JNull (c :: r)
  else '(d, rest) ← parse_number (c :: r); Some (JNum d, rest).

(** A recursive-descent parser of the JSON grammar.  [fuel] bounds the
    number of nested calls; [JSON_parse] below supplies more than any
    text needs (lemma [JSON_parse_fuel]). *)
Fixpoint parse_value (fuel : nat) (s : jsstring) : option (json * jsstring) :=
  match fuel with
  | O => None
  | S fuel =>
      match skip_ws s with
      | [] => None
      | c :: r =>
          if c =? 123 then
            match skip_ws r with
            | c' :: r' =>
                if c' =? 125 then Some (JObj [], r')
                else '(kvs, rest) ← parse_members fuel r;
                     Some (make_object kvs, rest)
            | [] => None
            end
          else if c =? 91 then
            match skip_ws r with
            | c' :: r' =>
                if c' =? 93 then Some (JArr [], r')
                else '(vs, rest) ← parse_elements fuel r;
                     Some (JArr vs, rest)
            | [] => None
            end
          else parse_scalar c r
      end
  end
with parse_elements (fuel : nat) (s : jsstring) : option (list json * jsstring) :=
  match fuel with
  | O => None
  | S fuel =>
      '(v, r) ← parse_value fuel s;
      match skip_ws r with
      | c :: r' =>
          if c =? 44 then
            '(vs, rest) ← parse_elements fuel r'; Some (v :: vs, rest)
          else if c =? 93 then Some ([v], r')
          else None
      | [] => None
      end
  end
with parse_members (fuel : nat) (s : jsstring)
  : option (list (jsstring * json) * jsstring) :=
  match fuel with
  | O => None
  | S fuel =>
      match skip_ws s with
      | q :: r0 =>
          if q =? dquote then
            '(k, r1) ← parse_chars r0;
            match skip_ws r1 with
            | colon :: r2 =>
                if colon =? 58 then
                  '(v, r3) ← parse_value fuel r2;
                  match skip_ws r3 with
                  | c :: r4 =>
                      if c =? 44 then
                        '(kvs, rest) ← parse_members fuel r4;
                        Some ((k, v) :: kvs, rest)
                      else if c =? 125 then Some ([(k, v)], r4)
                      else None
                  | [] => None
                  end
                else None
            | [] => None
            end
          else None
      | [] => None
      end
  end.

(** [JSON.parse(text)]: [None] stands for the SyntaxError it throws. *)
Definition JSON_parse (text : jsstring) : option json :=
  match parse_value (S (length text)) text with
  | Some (v, rest) =>
      match skip_ws rest with
      | [] => Some v
      | _ :: _ => None
      end
  | None => None
  end.

(** ** Strings again: trim and iteration *)

(** WhiteSpace and LineTerminator of ECMAScript. *)
Definition is_js_whitespace (c : N) : bool :=
  (c =? 9) || (c =? 10) || (c =? 11) || (c =? 12) || (c =? 13) || (c =? 32)
  || (c =? 160) || (c =? 5760) || ((8192 <=? c) && (c <=? 8202))
  || (c =? 8232) || (c =? 8233) || (c =? 8239) || (c =? 8287)
  || (c =? 12288) || (c =? 65279).

Fixpoint trimStart (s : jsstring) : jsstring :=
  match s with
  | c :: r => if is_js_whitespace c then trimStart r else s
  | [] => []
  end.

Definition trimEnd (s : jsstring) : jsstring := reverse (trimStart (reverse s)).

(** [s.trim()]. *)
Definition trim (s : jsstring) : jsstring := trimEnd (trimStart s).

(** The strings a string iterator yields: one per code point. *)
Fixpoint code_points (s : jsstring) : list jsstring :=
  match s with
  | [] => []
  | c :: r =>
      match r with
      | lo :: r' =>
          if is_high_surrogate c && is_low_surrogate lo
          then [c; lo] :: code_points r'
          else [c] :: code_points r
      | [] => [[c]]
      end
  end.

(** ** Exceptions, the world and the monad of handlers *)

Inductive exn :=
| SyntaxError
| TypeError
| QuotaExceededError
| SecurityError
| ProviderError (reason : jsstring)
| Error (message : jsstring).

(** [localStorage]: the stored items and the room the browser grants,
    counted in code units of keys and values. *)
Record Storage := { items : gmap jsstring jsstring; quota : nat }.

Definition usage (m : gmap jsstring jsstring) : nat :=
  map_fold (fun k v n => length k + length v + n)%nat 0%nat m.

Definition Storage_getItem (k : jsstring) (s : Storage) : option jsstring :=
  items s !! k.

(** The storage has room for [v] under the key [k]. *)
Definition fits (k v : jsstring) (s : Storage) : Prop :=
  (usage (<[k:=v]> (items s)) <= quota s)%nat.

#[global] Instance fits_dec k v s : Decision (fits k v s) :=
  decide (usage (<[k:=v]> (items s)) <= quota s)%nat.

(** [setItem] throws when the new contents do not fit. *)
Definition Storage_setItem (k v : jsstring) (s : Storage) : exn + Storage :=
  if decide (fits k v s)
  then inr {| items := <[k:=v]> (items s); quota := quota s |}
  else inl QuotaExceededError.

(** The state variables of [App] the history handlers read or write.
    The profile fields and the title come from form inputs and are
    strings.  [recommendation] holds what [getCareerRecommendations]
    returned and [history] what [JSON.parse] returned at startup, both
    unchecked: they are run-time values, [JNull] standing for [null]. *)
Record State := {
  st_education : jsstring;
  st_skills : jsstring;
  st_interests : jsstring;
  st_recommendation : json;
  st_history : json;
  st_isSaveModalOpen : bool;
  st_saveTitle : jsstring
}.

(** What [useState] is given on the first render. *)
Definition initial_state : State := {|
  st_education := [];
  st_skills := [];
  st_interests := [];
  st_recommendation := JNull;
  st_history := JArr [];
  st_isSaveModalOpen := false;
  st_saveTitle := []
|}.

Record World := {
  app : State;
  localStorage : Storage;
  console : list (jsstring * exn)
}.

(** A computation runs in a world and returns or throws. *)
Definition M (A : Type) : Type := World -> World * (exn + A).

#[global] Instance M_ret : MRet M := fun A x w => (w, inr x).

#[global] Instance M_bind : MBind M := fun A B f m w =>
  match m w with
  | (w', inr x) => f x w'
  | (w', inl e) => (w', inl e)
  end.

Definition throw {A} (e : exn) : M A := fun w => (w, inl e).

(** [try { body } catch (e) { handler(e) }]. *)
Definition try_catch {A} (body : M A) (handler : exn -> M A) : M A := fun w =>
  match body w with
  | (w', inr x) => (w', inr x)
  | (w', inl e) => handler e w'
  end.

Definition lift {A} (r : exn + A) : M A := fun w => (w, r).

Definition read_state : M State := fun w => (w, inr (app w)).

Definition write_state (f : State -> State) : M unit := fun w =>
  ({| app := f (app w); localStorage := localStorage w; console := console w |},
   inr tt).

Definition console_error (message : jsstring) (e : exn) : M unit := fun w =>
  ({| app := app w; localStorage := localStorage w;
      console := console w ++ [(message, e)] |}, inr tt).

(** [localStorage.getItem(k)].  A browser may deny the page its storage
    (storage blocked for the site, a sandboxed frame): reading
    [localStorage] then throws a SecurityError before anything is
    looked up.  [granted] is the browser's decision. *)
Definition localStorage_getItem (granted : bool) (k : jsstring)
  : M (option jsstring) := fun w =>
  if granted then (w, inr (Storage_getItem k (localStorage w)))
  else (w, inl SecurityError).

(** [localStorage.setItem(k, v)], on a page that was given its storage:
    the write fails when the storage has no room. *)

Definition localStorage_setItem (k v : jsstring) : M unit := fun w =>
  match Storage_setItem k v (localStorage w) with
  | inr s => ({| app := app w; localStorage := s; console := console w |}, inr tt)
  | inl e => (w, inl e)
  end.

Definition JSON_parse_or_throw (text : jsstring) : M json :=
  match JSON_parse text with
  | Some v => mret v
  | None => throw SyntaxError
  end.

(** ** geminiService.ts *)

#[local] Unset Elimination Schemes.
Inductive schema :=
| TypeSTRING
| TypeARRAY (item_schema : schema)
| TypeOBJECT (properties : list (jsstring * schema)) (required : list jsstring).
#[local] Set Elimination Schemes.

(** A value has the shape a response schema asks for. *)
Fixpoint conforms (s : schema) (v : json) : bool :=
  match s, v with
  | TypeSTRING, JStr _ => true
  | TypeARRAY t, JArr l => forallb (conforms t) l
  | TypeOBJECT properties required, JObj m =>
      forallb (fun k => bool_decide (is_Some (prop_get m k))) required
      && forallb (fun kt =>
                    match prop_get m kt.1 with
                    | Some x => conforms kt.2 x
                    | None => true
                    end) properties
  | _, _ => false
  end.

Inductive part :=
| inlineData (data mimeType : jsstring)
| text_part (text : jsstring).

Inductive contents :=
| contents_text (prompt : jsstring)
| contents_parts (parts : list part).

Record request := {
  model : jsstring;
  req_contents : contents;
  responseMimeType : jsstring;
  responseSchema : schema
}.

(** [response.text] is a string or [undefined]. *)
Record response := { text : option jsstring }.

(** The provider: what [ai.models.generateContent] settles with for a
    request.  A rejection is thrown at the [await]. *)
Definition provider := request -> exn + response.

Definition generateContent (ai : provider) (req : request) : M response :=
  lift (ai req).

(** [response.text || "{}"]: the text when it is a non-empty string. *)
Definition text_or_empty_object (r : response) : jsstring :=
  match text r with
  | Some t => if truthy (JStr t) then t else str "{}"
  | None => str "{}"
  end.

Definition nl : jsstring := [10].
Definition quoted (s : string) : jsstring := dquote :: str s ++ [dquote].
Arguments quoted _%_string.

Record CareerRecommendation := {
  careerPaths : list jsstring;
  internshipRoles : list jsstring;
  skillsToLearn : list jsstring;
  summary : jsstring
}.

Record ResumeData := {
  education : jsstring;
  skills : jsstring;
  interests : jsstring
}.

Definition scanResume_prompt : jsstring :=
  nl ++ str "    You are an expert recruiter. Extract the following information from this resume:"
  ++ nl ++ str "    1. Education (Degree, Year, Institution)"
  ++ nl ++ str "    2. Skills (Technical skills, programming languages, tools)"
  ++ nl ++ str "    3. Interests (Areas of interest, specializations)"
  ++ nl
  ++ nl ++ str "    If any field is missing, provide a reasonable guess based on the context or leave it as a short descriptive string."
  ++ nl ++ str "    Focus on Electronics and Communication Engineering (ECE) context if applicable."
  ++ nl
  ++ nl ++ str "    Provide the response in JSON format with the following structure:"
  ++ nl ++ str "    {"
  ++ nl ++ str "      " ++ quoted "education" ++ str ": " ++ quoted "..." ++ str ","
  ++ nl ++ str "      " ++ quoted "skills" ++ str ": " ++ quoted "..." ++ str ","
  ++ nl ++ str "      " ++ quoted "interests" ++ str ": " ++ quoted "..."
  ++ nl ++ str "    }"
  ++ nl ++ str "  ".

Definition scanResume_schema : schema :=
  TypeOBJECT
    [(str "education", TypeSTRING); (str "skills", TypeSTRING);
     (str "interests", TypeSTRING)]
    [str "education"; str "skills"; str "interests"].

Definition scan_failed : exn :=
  Error (str "Could not scan the resume. Please try manual input.").

Definition scanResume_request (base64Data mimeType : jsstring) : request := {|
  model := str "gemini-3-flash-preview";
  req_contents :=
    contents_parts [inlineData base64Data mimeType; text_part scanResume_prompt];
  responseMimeType := str "application/json";
  responseSchema := scanResume_schema
|}.

Definition scanResume (ai : provider) (base64Data mimeType : jsstring) : M json :=
  response ← generateContent ai (scanResume_request base64Data mimeType);
  try_catch
    (JSON_parse_or_throw (text_or_empty_object response))
    (fun e =>
       console_error (str "Failed to parse scan response") e;;
       throw scan_failed).

Definition getCareerRecommendations_prompt (education skills interests : jsstring)
  : jsstring :=
  nl ++ str "    You are a career advisor specializing in Electronics and Communication Engineering (ECE)."
  ++ nl ++ str "    Based on the following student profile, provide career recommendations."
  ++ nl ++ str "    "
  ++ nl ++ str "    Education: " ++ education
  ++ nl ++ str "    Skills: " ++ skills
  ++ nl ++ str "    Interests: " ++ interests
  ++ nl ++ str "    "
  ++ nl ++ str "    Provide the response in JSON format with the following structure:"
  ++ nl ++ str "    {"
  ++ nl ++ str "      " ++ quoted "careerPaths" ++ str ": [" ++ quoted "path1"
        ++ str ", " ++ quoted "path2" ++ str ", ...],"
  ++ nl ++ str "      " ++ quoted "internshipRoles" ++ str ": [" ++ quoted "role1"
        ++ str ", " ++ quoted "role2" ++ str ", ...],"
  ++ nl ++ str "      " ++ quoted "skillsToLearn" ++ str ": [" ++ quoted "skill1"
        ++ str ", " ++ quoted "skill2" ++ str ", ...],"
  ++ nl ++ str "      " ++ quoted "summary" ++ str ": "
        ++ quoted "A brief encouraging summary of why these paths fit."
  ++ nl ++ str "    }"
  ++ nl ++ str "  ".

Definition generation_failed : exn :=
  Error (str "Could not generate recommendations. Please try again.").

Definition getCareerRecommendations_schema : schema :=
  TypeOBJECT
    [(str "careerPaths", TypeARRAY TypeSTRING);
     (str "internshipRoles", TypeARRAY TypeSTRING);
     (str "skillsToLearn", TypeARRAY TypeSTRING);
     (str "summary", TypeSTRING)]
    [str "careerPaths"; str "internshipRoles"; str "skillsToLearn";
     str "summary"].

Definition getCareerRecommendations_request
    (education skills interests : jsstring) : request := {|
  model := str "gemini-3-flash-preview";
  req_contents :=
    contents_text (getCareerRecommendations_prompt education skills interests);
  responseMimeType := str "application/json";
  responseSchema := getCareerRecommendations_schema
|}.

Definition getCareerRecommendations (ai : provider)
    (education skills interests : jsstring) : M json :=
  response ← generateContent ai
    (getCareerRecommendations_request education skills interests);
  try_catch
    (JSON_parse_or_throw (text_or_empty_object response))
    (fun e =>
       console_error (str "Failed to parse Gemini response") e;;
       throw generation_failed).

(** The declared result types, as the run-time values they stand for. *)
Definition CareerRecommendation_json (r : CareerRecommendation) : json :=
  make_object
    [(str "careerPaths", JArr (map JStr (careerPaths r)));
     (str "internshipRoles", JArr (map JStr (internshipRoles r)));
     (str "skillsToLearn", JArr (map JStr (skillsToLearn r)));
     (str "summary", JStr (summary r))].

Definition ResumeData_json (d : ResumeData) : json :=
  make_object
    [(str "education", JStr (education d)); (str "skills", JStr (skills d));
     (str "interests", JStr (interests d))].

(** ** App.tsx: the history store *)

Record HistoryItem := {
  id : jsstring;
  title : jsstring;
  date : jsstring;
  recommendation : CareerRecommendation;
  inputs : ResumeData
}.

Definition HistoryItem_json (h : HistoryItem) : json :=
  make_object
    [(str "id", JStr (id h)); (str "title", JStr (title h));
     (str "date", JStr (date h));
     (str "recommendation", CareerRecommendation_json (recommendation h));
     (str "inputs", ResumeData_json (inputs h))].

(** A typed history list as the array the state variable holds. *)
Definition history_json (l : list HistoryItem) : json :=
  JArr (map HistoryItem_json l).

Definition storage_key : jsstring := str "ece_career_history".

Definition setHistory (h : json) : M unit :=
  write_state (fun s => {|
    st_education := st_education s; st_skills := st_skills s;
    st_interests := st_interests s; st_recommendation := st_recommendation s;
    st_history := h;
    st_isSaveModalOpen := st_isSaveModalOpen s; st_saveTitle := st_saveTitle s |}).

Definition setIsSaveModalOpen (b : bool) : M unit :=
  write_state (fun s => {|
    st_education := st_education s; st_skills := st_skills s;
    st_interests := st_interests s; st_recommendation := st_recommendation s;
    st_history := st_history s;
    st_isSaveModalOpen := b; st_saveTitle := st_saveTitle s |}).

Definition setSaveTitle (t : jsstring) : M unit :=
  write_state (fun s => {|
    st_education := st_education s; st_skills := st_skills s;
    st_interests := st_interests s; st_recommendation := st_recommendation s;
    st_history := st_history s;
    st_isSaveModalOpen := st_isSaveModalOpen s; st_saveTitle := t |}).

(** The effect that loads the history on the first render.  The read
    stands before the [try]: what it throws leaves the effect.
    [getItem] returns a string or [null]; [if (savedHistory)] lets a
    non-empty string through. *)
Definition loadHistory_effect (granted : bool) : M unit :=
  savedHistory ← localStorage_getItem granted storage_key;
  match savedHistory with
  | Some text =>
      if truthy (JStr text) then
        try_catch
          (h ← JSON_parse_or_throw text; setHistory h)
          (fun e => console_error (str "Failed to parse history") e)
      else mret tt
  | None => mret tt
  end.

(** The effect on a page that was given its storage. *)
Definition loadHistory : M unit := loadHistory_effect true.

Definition saveToLocalStorage (newHistory : json) : M unit :=
  localStorage_setItem storage_key (JSON_stringify newHistory);;
  setHistory newHistory.

(** [[...v]]: the elements of an array, the code points of a string;
    anything else is not iterable. *)
Definition spread (v : json) : exn + list json :=
  match v with
  | JArr l => inr l
  | JStr s => inr (map JStr (code_points s))
  | _ => inl TypeError
  end.

(** The object literal of [handleSave].  [uuid] is what
    [crypto.randomUUID()] returns and [now] what
    [new Date().toLocaleDateString(...)] returns. *)
Definition newItem (uuid now : jsstring) (s : State) : json :=
  make_object
    [(str "id", JStr uuid);
     (str "title", JStr (st_saveTitle s));
     (str "date", JStr now);
     (str "recommendation", st_recommendation s);
     (str "inputs",
      make_object
        [(str "education", JStr (st_education s));
         (str "skills", JStr (st_skills s));
         (str "interests", JStr (st_interests s))])].

Definition handleSave (uuid now : jsstring) : M unit :=
  s ← read_state;
  if negb (truthy (st_recommendation s))
     || negb (truthy (JStr (trim (st_saveTitle s))))
  then mret tt
  else
    rest ← lift (spread (st_history s));
    let newHistory := JArr (newItem uuid now s :: rest) in
    saveToLocalStorage newHistory;;
    setIsSaveModalOpen false;;
    setSaveTitle [].

(** [item.id]: reading a property of [null] throws; only an object can
    have an [id]. *)
Definition item_id (item : json) : exn + option json :=
  match item with
  | JNull => inl TypeError
  | JObj m => inr (prop_get m (str "id"))
  | _ => inr None
  end.

(** [x !== id] for a string [id]; [None] is [undefined]. *)
Definition strict_ne_string (x : option json) (id : jsstring) : bool :=
  match x with
  | Some (JStr s) => negb (jsstring_eqb s id)
  | _ => true
  end.

(** [Array.prototype.filter] with a callback that may throw. *)
Fixpoint array_filter (keep : json -> exn + bool) (l : list json)
  : exn + list json :=
  match l with
  | [] => inr []
  | x :: r =>
      match keep x with
      | inl e => inl e
      | inr b =>
          match array_filter keep r with
          | inl e => inl e
          | inr r' => inr (if b then x :: r' else r')
          end
      end
  end.

(** [history.filter(item => item.id !== id)]; only an array has a
    [filter] method. *)
Definition filter_history (history : json) (id : jsstring) : exn + json :=
  match history with
  | JArr l =>
      match array_filter
              (fun item =>
                 match item_id item with
                 | inl e => inl e
                 | inr x => inr (strict_ne_string x id)
                 end) l with
      | inl e => inl e
      | inr l' => inr (JArr l')
      end
  | _ => inl TypeError
  end.

(** [deleteHistoryItem]; its [e.stopPropagation()] touches no state. *)
Definition deleteHistoryItem (id : jsstring) : M unit :=
  s ← read_state;
  newHistory ← lift (filter_history (st_history s) id);
  saveToLocalStorage newHistory.

(** The click handler of "Clear All"; [confirmed] is the user's answer
    to [confirm('Clear all history?')]. *)
Definition clearAll (confirmed : bool) : M unit :=
  if confirmed then saveToLocalStorage (JArr []) else mret tt.

(** The world a page load starts in: fresh state, an empty console,
    and whatever the storage holds. *)
Definition page_load (storage : Storage) : World :=
  {| app := initial_state; localStorage := storage; console := [] |}.

(** The entry [handleSave] creates, at its declared type. *)
Definition saved_item (uuid now : jsstring) (s : State)
    (r : CareerRecommendation) : HistoryItem := {|
  id := uuid;
  title := st_saveTitle s;
  date := now;
  recommendation := r;
  inputs := {| education := st_education s; skills := st_skills s;
               interests := st_interests s |}
|}.

(** The state after a completed [handleSave] that stored [h]. *)
Definition saved_state (h : json) (s : State) : State := {|
  st_education := st_education s;
  st_skills := st_skills s;
  st_interests := st_interests s;
  st_recommendation := st_recommendation s;
  st_history := h;
  st_isSaveModalOpen := false;
  st_saveTitle := []
|}.

Definition with_history (h : json) (s : State) : State := {|
  st_education := st_education s;
  st_skills := st_skills s;
  st_interests := st_interests s;
  st_recommendation := st_recommendation s;
  st_history := h;
  st_isSaveModalOpen := st_isSaveModalOpen s;
  st_saveTitle := st_saveTitle s
|}.

(** The world after [console.error(message, e)]. *)
Definition logged (message : jsstring) (e : exn) (w : World) : World :=
  {| app := app w; localStorage := localStorage w;
     console := console w ++ [(message, e)] |}.

(** The store's invariant: the state variable holds the list, the
    storage key holds the text of that list, and the storage is within
    its quota.  A completed save, delete or clear leaves the world
    so, and so does loading a page over such a storage. *)
Definition synced (w : World) (l : list HistoryItem) : Prop :=
  st_history (app w) = history_json l
  /\ Storage_getItem storage_key (localStorage w)
     = Some (JSON_stringify (history_json l))
  /\ (usage (items (localStorage w)) <= quota (localStorage w))%nat.

(** A title with something other than white space in it. *)
Definition has_content (s : jsstring) : Prop :=
  Exists (fun c => is_js_whitespace c = false) s.

Definition blank (s : jsstring) : Prop :=
  Forall (fun c => is_js_whitespace c = true) s.

(** ** App.tsx: the navigator

    The handlers of the form, of the resume upload and of the history
    cards.  They work on ten state variables.  Four of them the history
    store reads as well, at their declared type: [education], [skills],
    [interests] and [recommendation].  [handleScan] puts into them what
    the provider's answer holds under three keys and [viewHistoryItem]
    what a stored item holds, both unchecked, so here the four are
    run-time values; [None] is [undefined].

    [handleSubmit] and [handleScan] are asynchronous.  A handler reads
    the state its render closed over, which is the state it starts in,
    and each setter writes one variable; the embedding runs a handler
    from its start to the end of its last [await] with no other event
    in between. *)

(** ToBoolean of a value that may be [undefined]. *)
Definition to_boolean (v : option json) : bool :=
  match v with
  | Some x => truthy x
  | None => false
  end.

(** [v.k] for a key no prototype defines: reading a property of [null]
    or of [undefined] throws, an object gives its own property, every
    other value gives [undefined]. *)
Definition get_property (v : option json) (k : jsstring) : exn + option json :=
  match v with
  | None | Some JNull => inl TypeError
  | Some (JObj m) => inr (prop_get m k)
  | Some _ => inr None
  end.

(** ToString, as a template literal applies it.  An array is joined
    with commas, [null] elements giving the empty string.  An object
    made by [JSON.parse] inherits [Object.prototype.toString] unless it
    has a property of that name; such a property is not callable and
    [valueOf] gives no primitive either, which is a [TypeError].  How
    a number is written is left to [Number_toString]. *)
Fixpoint ToString (Number_toString : decimal -> jsstring) (v : json)
  : exn + jsstring :=
  match v with
  | JNull => inr (str "null")
  | JBool true => inr (str "true")
  | JBool false => inr (str "false")
  | JNum d => inr (Number_toString d)
  | JStr s => inr s
  | JArr l =>
      (fix join (l : list json) : exn + jsstring :=
         match l with
         | [] => inr []
         | x :: r =>
             match match x with
                   | JNull => inr []
                   | _ => ToString Number_toString x
                   end with
             | inl e => inl e
             | inr s =>
                 match r with
                 | [] => inr s
                 | _ :: _ =>
                     match join r with
                     | inl e => inl e
                     | inr t => inr (s ++ 44 :: t)
                     end
                 end
             end
         end) l
  | JObj m =>
      match prop_get m (str "toString") with
      | Some _ => inl TypeError
      | None => inr (str "[object Object]")
      end
  end.

Definition ToString_value (Number_toString : decimal -> jsstring)
    (v : option json) : exn + jsstring :=
  match v with
  | Some x => ToString Number_toString x
  | None => inr (str "undefined")
  end.

Inductive tab := tab_navigator | tab_history.

(** What the handlers read of a [File]. *)
Record File := { file_name : jsstring; file_type : jsstring; file_size : N }.

Record Page := {
  pg_activeTab : tab;
  pg_education : option json;
  pg_skills : option json;
  pg_interests : option json;
  pg_loading : bool;
  pg_isScanning : bool;
  pg_recommendation : option json;
  pg_error : option jsstring;
  pg_uploadedFile : option File;
  pg_isDragging : bool
}.

(** What [useState] is given on the first render; [null] is [JNull]
    for a value and [None] for the error and the file. *)
Definition initial_page : Page := {|
  pg_activeTab := tab_navigator;
  pg_education := Some (JStr []);
  pg_skills := Some (JStr []);
  pg_interests := Some (JStr []);
  pg_loading := false;
  pg_isScanning := false;
  pg_recommendation := Some JNull;
  pg_error := None;
  pg_uploadedFile := None;
  pg_isDragging := false
|}.

(** The navigator's variables and the console.  [console.error(err)]
    writes a line without a message. *)
Record Component := {
  page : Page;
  log : list (option jsstring * exn)
}.

Definition Act (A : Type) : Type := Component -> Component * (exn + A).

#[global] Instance Act_ret : MRet Act := fun A x c => (c, inr x).

#[global] Instance Act_bind : MBind Act := fun A B f m c =>
  match m c with
  | (c', inr x) => f x c'
  | (c', inl e) => (c', inl e)
  end.

(** A value or an exception at hand, as a step of a handler. *)
Definition settle {A} (r : exn + A) : Act A := fun c => (c, r).

(** [try { body } catch (err) { handler(err) } finally { finalizer }]. *)
Definition try_catch_finally {A} (body : Act A) (handler : exn -> Act A)
    (finalizer : Act unit) : Act A := fun c =>
  let '(c1, r) := match body c with
                  | (c', inr x) => (c', inr x)
                  | (c', inl e) => handler e c'
                  end in
  match finalizer c1 with
  | (c2, inr _) => (c2, r)
  | (c2, inl e) => (c2, inl e)
  end.

Definition read_page : Act Page := fun c => (c, inr (page c)).

Definition write_page (f : Page -> Page) : Act unit := fun c =>
  ({| page := f (page c); log := log c |}, inr tt).

(** [console.error(err)]. *)
Definition console_error_value (err : exn) : Act unit := fun c =>
  ({| page := page c; log := log c ++ [(None, err)] |}, inr tt).

(** A line of the service module, as the component's console has it. *)
Definition service_line (line : jsstring * exn) : option jsstring * exn :=
  (Some line.1, line.2).

(** A world of its own for a call into the service module, which reads
    and writes neither the component nor the storage. *)
Definition service_world : World :=
  {| app := initial_state;
     localStorage := {| items := ∅; quota := 0 |};
     console := [] |}.

(** An awaited call of a service function: what it logs goes to the
    console, a rejection is thrown at the [await]. *)
Definition await_service {A} (call : M A) : Act A := fun c =>
  match call service_world with
  | (w, r) =>
      ({| page := page c;
          log := log c ++ map service_line (console w) |},
       r)
  end.

Definition setActiveTab (t : tab) : Act unit :=
  write_page (fun p => {|
    pg_activeTab := t;
    pg_education := pg_education p; pg_skills := pg_skills p;
    pg_interests := pg_interests p; pg_loading := pg_loading p;
    pg_isScanning := pg_isScanning p; pg_recommendation := pg_recommendation p;
    pg_error := pg_error p; pg_uploadedFile := pg_uploadedFile p;
    pg_isDragging := pg_isDragging p |}).

Definition setEducation (v : option json) : Act unit :=
  write_page (fun p => {|
    pg_activeTab := pg_activeTab p;
    pg_education := v; pg_skills := pg_skills p;
    pg_interests := pg_interests p; pg_loading := pg_loading p;
    pg_isScanning := pg_isScanning p; pg_recommendation := pg_recommendation p;
    pg_error := pg_error p; pg_uploadedFile := pg_uploadedFile p;
    pg_isDragging := pg_isDragging p |}).

Definition setSkills (v : option json) : Act unit :=
  write_page (fun p => {|
    pg_activeTab := pg_activeTab p;
    pg_education := pg_education p; pg_skills := v;
    pg_interests := pg_interests p; pg_loading := pg_loading p;
    pg_isScanning := pg_isScanning p; pg_recommendation := pg_recommendation p;
    pg_error := pg_error p; pg_uploadedFile := pg_uploadedFile p;
    pg_isDragging := pg_isDragging p |}).

Definition setInterests (v : option json) : Act unit :=
  write_page (fun p => {|
    pg_activeTab := pg_activeTab p;
    pg_education := pg_education p; pg_skills := pg_skills p;
    pg_interests := v; pg_loading := pg_loading p;
    pg_isScanning := pg_isScanning p; pg_recommendation := pg_recommendation p;
    pg_error := pg_error p; pg_uploadedFile := pg_uploadedFile p;
    pg_isDragging := pg_isDragging p |}).

Definition setLoading (b : bool) : Act unit :=
  write_page (fun p => {|
    pg_activeTab := pg_activeTab p;
    pg_education := pg_education p; pg_skills := pg_skills p;
    pg_interests := pg_interests p; pg_loading := b;
    pg_isScanning := pg_isScanning p; pg_recommendation := pg_recommendation p;
    pg_error := pg_error p; pg_uploadedFile := pg_uploadedFile p;
    pg_isDragging := pg_isDragging p |}).

Definition setIsScanning (b : bool) : Act unit :=
  write_page (fun p => {|
    pg_activeTab := pg_activeTab p;
    pg_education := pg_education p; pg_skills := pg_skills p;
    pg_interests := pg_interests p; pg_loading := pg_loading p;
    pg_isScanning := b; pg_recommendation := pg_recommendation p;
    pg_error := pg_error p; pg_uploadedFile := pg_uploadedFile p;
    pg_isDragging := pg_isDragging p |}).

Definition setRecommendation (v : option json) : Act unit :=
  write_page (fun p => {|
    pg_activeTab := pg_activeTab p;
    pg_education := pg_education p; pg_skills := pg_skills p;
    pg_interests := pg_interests p; pg_loading := pg_loading p;
    pg_isScanning := pg_isScanning p; pg_recommendation := v;
    pg_error := pg_error p; pg_uploadedFile := pg_uploadedFile p;
    pg_isDragging := pg_isDragging p |}).

Definition setError (e : option jsstring) : Act unit :=
  write_page (fun p => {|
    pg_activeTab := pg_activeTab p;
    pg_education := pg_education p; pg_skills := pg_skills p;
    pg_interests := pg_interests p; pg_loading := pg_loading p;
    pg_isScanning := pg_isScanning p; pg_recommendation := pg_recommendation p;
    pg_error := e; pg_uploadedFile := pg_uploadedFile p;
    pg_isDragging := pg_isDragging p |}).

Definition setUploadedFile (f : option File) : Act unit :=
  write_page (fun p => {|
    pg_activeTab := pg_activeTab p;
    pg_education := pg_education p; pg_skills := pg_skills p;
    pg_interests := pg_interests p; pg_loading := pg_loading p;
    pg_isScanning := pg_isScanning p; pg_recommendation := pg_recommendation p;
    pg_error := pg_error p; pg_uploadedFile := f;
    pg_isDragging := pg_isDragging p |}).

Definition setIsDragging (b : bool) : Act unit :=
  write_page (fun p => {|
    pg_activeTab := pg_activeTab p;
    pg_education := pg_education p; pg_skills := pg_skills p;
    pg_interests := pg_interests p; pg_loading := pg_loading p;
    pg_isScanning := pg_isScanning p; pg_recommendation := pg_recommendation p;
    pg_error := pg_error p; pg_uploadedFile := pg_uploadedFile p;
    pg_isDragging := b |}).

(** A call of [getCareerRecommendations] with run-time values: the
    function uses its arguments in the template literal of the prompt
    only, which applies ToString to them in turn, before the request is
    made. *)
Definition getCareerRecommendations_of (Number_toString : decimal -> jsstring)
    (ai : provider) (education skills interests : option json) : Act json :=
  e ← settle (ToString_value Number_toString education);
  s ← settle (ToString_value Number_toString skills);
  i ← settle (ToString_value Number_toString interests);
  await_service (getCareerRecommendations ai e s i).

Definition submit_failed : jsstring :=
  str "Failed to get recommendations. Please try again.".

(** [handleSubmit]; its [e.preventDefault()] touches no state. *)
Definition handleSubmit (Number_toString : decimal -> jsstring) (ai : provider)
  : Act unit :=
  p ← read_page;
  if negb (to_boolean (pg_education p)) || negb (to_boolean (pg_skills p))
     || negb (to_boolean (pg_interests p))
  then mret tt
  else
    setLoading true;;
    setError None;;
    try_catch_finally
      (result ← getCareerRecommendations_of Number_toString ai
                  (pg_education p) (pg_skills p) (pg_interests p);
       setRecommendation (Some result))
      (fun err => setError (Some submit_failed);; console_error_value err)
      (setLoading false).

Definition validTypes : list jsstring :=
  [str "application/pdf";
   str "application/msword";
   str "application/vnd.openxmlformats-officedocument.wordprocessingml.document";
   str "text/plain"].

(** [l.includes(x)] on strings. *)
Definition includes (l : list jsstring) (x : jsstring) : bool :=
  existsb (jsstring_eqb x) l.

(** [s.endsWith(t)]. *)
Definition endsWith (s t : jsstring) : bool :=
  (length t <=? length s)%nat && jsstring_eqb (drop (length s - length t) s) t.

Definition upload_rejected : jsstring :=
  str "Please upload a PDF or Word document.".

(** [handleFileChange]; [file] is [e.target.files?.[0]]. *)
Definition handleFileChange (file : option File) : Act unit :=
  match file with
  | Some f =>
      if includes validTypes (file_type f) || endsWith (file_name f) (str ".pdf")
         || endsWith (file_name f) (str ".doc")
         || endsWith (file_name f) (str ".docx")
      then setUploadedFile (Some f);; setError None
      else setError (Some upload_rejected);; setUploadedFile None
  | None => mret tt
  end.

Definition handleDragOver : Act unit := setIsDragging true.

Definition handleDragLeave : Act unit := setIsDragging false.

(** [handleDrop]; [file] is [e.dataTransfer.files?.[0]]. *)
Definition handleDrop (file : option File) : Act unit :=
  setIsDragging false;;
  match file with
  | Some f =>
      if includes validTypes (file_type f) || endsWith (file_name f) (str ".pdf")
         || endsWith (file_name f) (str ".doc")
         || endsWith (file_name f) (str ".docx")
      then setUploadedFile (Some f);; setError None
      else setError (Some upload_rejected);; setUploadedFile None
  | None => mret tt
  end.

(** [s.split(sep)] for a separator of one code unit; [seg] holds the
    segment being read, latest unit first. *)
Fixpoint split_from (sep : N) (seg s : jsstring) : list jsstring :=
  match s with
  | [] => [reverse seg]
  | c :: r =>
      if c =? sep then reverse seg :: split_from sep [] r
      else split_from sep (c :: seg) r
  end.

Definition String_split (sep : N) (s : jsstring) : list jsstring :=
  split_from sep [] s.

(** How [reader.readAsDataURL(file)] ends: the [load] event with
    [reader.result], or the [error] event. *)
Inductive reader_event :=
| reader_onload (result : jsstring)
| reader_onerror (error : exn).

(** [fileToBase64]: what the promise settles with.  The second piece of
    the result is [undefined] when the result has no comma. *)
Definition fileToBase64 (reader : File -> reader_event) (file : File)
  : exn + option jsstring :=
  match reader file with
  | reader_onload result => inr (String_split 44 result !! 1%nat)
  | reader_onerror error => inl error
  end.

(** [scanResume(base64, mimeType)] as [handleScan] calls it.  A request
    of the model carries a string; for [undefined] data the request
    cannot be written down, and [no_data mimeType] is what the provider
    settles with for it. *)
Definition scanResume_of (ai : provider) (no_data : jsstring -> exn + response)
    (base64 : option jsstring) (mimeType : jsstring) : Act json :=
  match base64 with
  | Some data => await_service (scanResume ai data mimeType)
  | None => await_service (scanResume (fun _ => no_data mimeType) [] mimeType)
  end.

Definition scan_rejected : jsstring :=
  str "Failed to scan resume. Please try manual input.".

(** [handleScan]. *)
Definition handleScan (Number_toString : decimal -> jsstring) (ai : provider)
    (no_data : jsstring -> exn + response) (reader : File -> reader_event)
  : Act unit :=
  p ← read_page;
  match pg_uploadedFile p with
  | None => mret tt
  | Some uploadedFile =>
      setIsScanning true;;
      setError None;;
      setRecommendation (Some JNull);;
      try_catch_finally
        (base64 ← settle (fileToBase64 reader uploadedFile);
         let mimeType :=
           if truthy (JStr (file_type uploadedFile)) then file_type uploadedFile
           else str "application/pdf" in
         extractedData ← scanResume_of ai no_data base64 mimeType;
         education ← settle (get_property (Some extractedData) (str "education"));
         setEducation education;;
         skills ← settle (get_property (Some extractedData) (str "skills"));
         setSkills skills;;
         interests ← settle (get_property (Some extractedData) (str "interests"));
         setInterests interests;;
         result ← getCareerRecommendations_of Number_toString ai
                    education skills interests;
         setRecommendation (Some result))
        (fun err => setError (Some scan_rejected);; console_error_value err)
        (setIsScanning false)
  end.

(** [viewHistoryItem(item)]; [item] is an element of the history. *)
Definition viewHistoryItem (item : json) : Act unit :=
  recommendation ← settle (get_property (Some item) (str "recommendation"));
  setRecommendation recommendation;;
  inputs ← settle (get_property (Some item) (str "inputs"));
  education ← settle (get_property inputs (str "education"));
  setEducation education;;
  skills ← settle (get_property inputs (str "skills"));
  setSkills skills;;
  interests ← settle (get_property inputs (str "interests"));
  setInterests interests;;
  setActiveTab tab_navigator.

Definition reset : Act unit :=
  setRecommendation (Some JNull);;
  setEducation (Some (JStr []));;
  setSkills (Some (JStr []));;
  setInterests (Some (JStr []));;
  setUploadedFile None.

(** The four panels of the output section, by the conditions the
    render puts before them. *)
Definition empty_panel (p : Page) : bool :=
  negb (to_boolean (pg_recommendation p)) && negb (pg_loading p)
  && negb (pg_isScanning p) && negb (to_boolean (JStr <$> pg_error p)).

Definition loading_panel (p : Page) : bool := pg_loading p || pg_isScanning p.

Definition error_panel (p : Page) : bool := to_boolean (JStr <$> pg_error p).

Definition result_panel (p : Page) : bool := to_boolean (pg_recommendation p).

(** [v.map(...)]: only an array has a [map] method. *)
Definition array_items (v : option json) : exn + list json :=
  match v with
  | Some (JArr l) => inr l
  | _ => inl TypeError
  end.

(** What the result panel reads of the recommendation, in the order of
    the render: the summary and the three lists it maps over.  How
    React draws what was read is not part of the model. *)
Definition result_panel_reads (recommendation : option json)
  : exn + (option json * list json * list json * list json) :=
  match get_property recommendation (str "summary") with
  | inl e => inl e
  | inr summary =>
      match get_property recommendation (str "careerPaths") with
      | inl e => inl e
      | inr paths =>
          match array_items paths with
          | inl e => inl e
          | inr careerPaths =>
              match get_property recommendation (str "internshipRoles") with
              | inl e => inl e
              | inr roles =>
                  match array_items roles with
                  | inl e => inl e
                  | inr internshipRoles =>
                      match get_property recommendation (str "skillsToLearn") with
                      | inl e => inl e
                      | inr toLearn =>
                          match array_items toLearn with
                          | inl e => inl e
                          | inr skillsToLearn =>
                              inr (summary, careerPaths, internshipRoles,
                                   skillsToLearn)
                          end
                      end
                  end
              end
          end
      end
  end.

(** The page after a [handleSubmit] that asked the provider. *)
Definition submitted (recommendation : option json) (error : option jsstring)
    (p : Page) : Page := {|
  pg_activeTab := pg_activeTab p;
  pg_education := pg_education p; pg_skills := pg_skills p;
  pg_interests := pg_interests p;
  pg_loading := false;
  pg_isScanning := pg_isScanning p;
  pg_recommendation := recommendation;
  pg_error := error;
  pg_uploadedFile := pg_uploadedFile p;
  pg_isDragging := pg_isDragging p
|}.

(** The page after a file was chosen or dropped. *)
Definition uploaded (file : option File) (error : option jsstring)
    (p : Page) : Page := {|
  pg_activeTab := pg_activeTab p;
  pg_education := pg_education p; pg_skills := pg_skills p;
  pg_interests := pg_interests p;
  pg_loading := pg_loading p;
  pg_isScanning := pg_isScanning p;
  pg_recommendation := pg_recommendation p;
  pg_error := error;
  pg_uploadedFile := file;
  pg_isDragging := pg_isDragging p
|}.

Definition not_dragging (p : Page) : Page := {|
  pg_activeTab := pg_activeTab p;
  pg_education := pg_education p; pg_skills := pg_skills p;
  pg_interests := pg_interests p;
  pg_loading := pg_loading p;
  pg_isScanning := pg_isScanning p;
  pg_recommendation := pg_recommendation p;
  pg_error := pg_error p;
  pg_uploadedFile := pg_uploadedFile p;
  pg_isDragging := false
|}.

(** The page after a [handleScan] that found a file: the profile
    fields, the recommendation and the error are as given, nothing is
    being scanned. *)
Definition scanned (education skills interests recommendation : option json)
    (error : option jsstring) (p : Page) : Page := {|
  pg_activeTab := pg_activeTab p;
  pg_education := education; pg_skills := skills;
  pg_interests := interests;
  pg_loading := pg_loading p;
  pg_isScanning := false;
  pg_recommendation := recommendation;
  pg_error := error;
  pg_uploadedFile := pg_uploadedFile p;
  pg_isDragging := pg_isDragging p
|}.

(** The page after a [handleScan] that failed before it read the
    answer: the form is as it was. *)
Definition scan_failed_early (p : Page) : Page :=
  scanned (pg_education p) (pg_skills p) (pg_interests p) (Some JNull)
    (Some scan_rejected) p.

(** The page after a history card was opened. *)
Definition viewed (recommendation education skills interests : option json)
    (p : Page) : Page := {|
  pg_activeTab := tab_navigator;
  pg_education := education; pg_skills := skills;
  pg_interests := interests;
  pg_loading := pg_loading p;
  pg_isScanning := pg_isScanning p;
  pg_recommendation := recommendation;
  pg_error := pg_error p;
  pg_uploadedFile := pg_uploadedFile p;
  pg_isDragging := pg_isDragging p
|}.

(** The MIME type [handleScan] announces for a file. *)
Definition announced_type (f : File) : jsstring :=
  if truthy (JStr (file_type f)) then file_type f else str "application/pdf".

(** The three profile fields as the prompt spells them. *)
Definition profile_strings (Number_toString : decimal -> jsstring)
    (education skills interests : option json)
  : exn + (jsstring * jsstring * jsstring) :=
  match ToString_value Number_toString education with
  | inl x => inl x
  | inr e =>
      match ToString_value Number_toString skills with
      | inl x => inl x
      | inr s =>
          match ToString_value Number_toString interests with
          | inl x => inl x
          | inr i => inr (e, s, i)
          end
      end
  end.

(** A file the upload takes: one of the four types, or a name with one
    of the three endings. *)
Definition acceptable (f : File) : Prop :=
  file_type f ∈ validTypes
  \/ exists stem, file_name f = stem ++ str ".pdf"
                  \/ file_name f = stem ++ str ".doc"
                  \/ file_name f = stem ++ str ".docx".

(** What [handleScan] reads of the scan's answer. *)
Definition extracted_fields (extractedData : json)
  : exn + (option json * option json * option json) :=
  match extractedData with
  | JNull => inl TypeError
  | JObj m =>
      inr (prop_get m (str "education"), prop_get m (str "skills"),
           prop_get m (str "interests"))
  | _ => inr (None, None, None)
  end.

(** A value is a string. *)
Definition is_string (v : json) : Prop := exists s, v = JStr s.

(** The page with another recommendation. *)
Definition showing (recommendation : option json) (p : Page) : Page := {|
  pg_activeTab := pg_activeTab p;
  pg_education := pg_education p; pg_skills := pg_skills p;
  pg_interests := pg_interests p;
  pg_loading := pg_loading p;
  pg_isScanning := pg_isScanning p;
  pg_recommendation := recommendation;
  pg_error := pg_error p;
  pg_uploadedFile := pg_uploadedFile p;
  pg_isDragging := pg_isDragging p
|}.

(** The page after "Start New Analysis". *)
Definition cleared (p : Page) : Page := {|
  pg_activeTab := pg_activeTab p;
  pg_education := Some (JStr []); pg_skills := Some (JStr []);
  pg_interests := Some (JStr []);
  pg_loading := pg_loading p;
  pg_isScanning := pg_isScanning p;
  pg_recommendation := Some JNull;
  pg_error := pg_error p;
  pg_uploadedFile := None;
  pg_isDragging := pg_isDragging p
|}.

(** ** Values that survive storage *)

(** Values built from [null], booleans, strings, arrays and objects
    whose properties are listed the way the engine enumerates them
    (creating them one after the other gives the same list).  Numbers
    are left out: a literal that overflows is written back as [null]. *)
#[local] Unset Elimination Schemes.
Inductive plain : json -> Prop :=
| plain_null : plain JNull
| plain_bool b : plain (JBool b)
| plain_str s : plain (JStr s)
| plain_arr l : Forall plain l -> plain (JArr l)
| plain_obj m :
    foldl prop_set [] m = m ->
    Forall (fun kv => plain kv.2) m ->
    plain (JObj m).
#[local] Set Elimination Schemes.

(** Fuel that suffices to parse the text of a value. *)
Fixpoint parse_cost (v : json) : nat :=
  match v with
  | JArr l => S (list_sum (map (fun x => S (parse_cost x)) l))
  | JObj m => S (list_sum (map (fun kv => S (parse_cost kv.2)) m))
  | _ => 1
  end.

(** A text that begins with a character of a value, not with white
    space or a closing bracket. *)
Definition starts_value (s : jsstring) : Prop :=
  exists c t, s = c :: t /\ is_json_ws c = false
              /\ (c =? 93) = false /\ (c =? 125) = false.

(** The text of [v], whatever follows it, parses to [v] and leaves what
    follows, with any fuel from [parse_cost v] on. *)
Definition parses_back (v : json) : Prop :=
  forall fuel rest,
    (parse_cost v <= fuel)%nat ->
    parse_value fuel (JSON_stringify v ++ rest) = Some (v, rest).

(** ** Sample data *)

Definition sample_recommendation : CareerRecommendation := {|
  careerPaths := [str "VLSI Design Engineer"; str "Embedded Systems Engineer"];
  internshipRoles := [str "RTL Design Intern"];
  skillsToLearn := [str "SystemVerilog"; str "RTOS"];
  summary := str "Your Verilog and Arduino work fits chip and firmware roles."
|}.

Definition sample_item : HistoryItem := {|
  id := str "6fd1c6a2-0001";
  title := str "First roadmap";
  date := str "Nov 2, 2026, 09:15 AM";
  recommendation := sample_recommendation;
  inputs := {| education := str "3rd Year B.Tech in ECE";
               skills := str "Verilog, Arduino, Python";
               interests := str "VLSI, Embedded Systems" |}
|}.



(** A session that shows a recommendation, holds one saved roadmap and
    has the save dialog open with a title typed in. *)
Definition sample_state : State := {|
  st_education := str "3rd Year B.Tech in ECE";
  st_skills := str "Verilog, Arduino, Python";
  st_interests := str "VLSI, Embedded Systems";
  st_recommendation := CareerRecommendation_json sample_recommendation;
  st_history := history_json [sample_item];
  st_isSaveModalOpen := true;
  st_saveTitle := str " VLSI plan "
|}.

Definition roomy_storage : Storage := {| items := ∅; quota := 5000 |}.

(** A storage that accepts nothing, as when the quota is used up. *)
Definition full_storage : Storage := {| items := ∅; quota := 0 |}.

Definition sample_world : World :=
  {| app := sample_state; localStorage := roomy_storage; console := [] |}.

(** The sample session over a storage that holds its history. *)
Definition synced_world : World :=
  {| app := sample_state;
     localStorage :=
       {| items := {[storage_key := JSON_stringify (history_json [sample_item])]};
          quota := 5000 |};
     console := [] |}.

(** The same with no room left: the quota is what the stored history
    takes. *)
Definition tight_world : World :=
  {| app := sample_state;
     localStorage :=
       {| items := {[storage_key := JSON_stringify (history_json [sample_item])]};
          quota :=
            usage {[storage_key := JSON_stringify (history_json [sample_item])]} |};
     console := [] |}.

(** A first visit with a storage that accepts nothing: no history yet,
    a recommendation shown and a title typed in. *)
Definition private_world : World :=
  {| app := with_history (JArr []) sample_state;
     localStorage := full_storage; console := [] |}.



(** Providers: one whose response carries no text, one that answers
    with a fixed text, one whose call is rejected. *)
Definition silent_provider : provider := fun _ => inr {| text := None |}.

Definition answering (t : jsstring) : provider := fun _ => inr {| text := Some t |}.

Definition failing_provider : provider :=
  fun _ => inl (ProviderError (str "fetch failed")).

(** The text [{"summary":"ok"}]. *)
Definition summary_only_text : jsstring :=
  str "{" ++ quoted "summary" ++ str ":" ++ quoted "ok" ++ str "}".


(** The navigator of the sample session: the form filled in, nothing
    asked yet. *)
Definition sample_page : Page := {|
  pg_activeTab := tab_navigator;
  pg_education := Some (JStr (str "3rd Year B.Tech in ECE"));
  pg_skills := Some (JStr (str "Verilog, Arduino, Python"));
  pg_interests := Some (JStr (str "VLSI, Embedded Systems"));
  pg_loading := false;
  pg_isScanning := false;
  pg_recommendation := Some JNull;
  pg_error := None;
  pg_uploadedFile := None;
  pg_isDragging := false
|}.

Definition sample_component : Component := {| page := sample_page; log := [] |}.

Definition sample_file : File :=
  {| file_name := str "resume.pdf"; file_type := str "application/pdf";
     file_size := 48213 |}.

(** A Word file whose type the browser did not recognise. *)
Definition untyped_file : File :=
  {| file_name := str "resume.docx"; file_type := []; file_size := 20480 |}.

(** A fresh page with the sample file uploaded. *)
Definition upload_component : Component :=
  {| page := uploaded (Some sample_file) None initial_page; log := [] |}.

(** A reader that loads every file as a data URL of its type with the
    same payload. *)
Definition sample_reader : File -> reader_event := fun f =>
  reader_onload (str "data:" ++ file_type f ++ str ";base64," ++ str "JVBERi0xLjQ=").

(** The texts of a typed scan answer and of a typed recommendation. *)
Definition scan_text : jsstring :=
  JSON_stringify (ResumeData_json (inputs sample_item)).

Definition recommendation_text : jsstring :=
  JSON_stringify (CareerRecommendation_json sample_recommendation).

(** A provider that answers a scan with [scan_text] and a prompt with
    [recommendation_text]. *)
Definition sample_provider : provider := fun req =>
  match req_contents req with
  | contents_parts _ => inr {| text := Some scan_text |}
  | contents_text _ => inr {| text := Some recommendation_text |}
  end.

(** A reader that cannot read any file. *)
Definition broken_reader : File -> reader_event :=
  fun _ => reader_onerror (Error (str "NotReadableError")).

(** A provider that accepts no request without data. *)
Definition no_data_rejected : jsstring -> exn + response :=
  fun _ => inl (ProviderError (str "no data")).

(** A provider that answers a scan with [scan_text] and rejects every
    other request. *)
Definition scan_only_provider : provider := fun req =>
  match req_contents req with
  | contents_parts _ => inr {| text := Some scan_text |}
  | contents_text _ => inl (ProviderError (str "fetch failed"))
  end.

(** * Properties *)

(** ** String literals round-trip *)

Lemma hex_val_digit d : d < 16 -> hex_val (hex_digit d) = Some d.
Proof.
  intros Hd. unfold hex_val, hex_digit.
  destruct (d <? 10) eqn:E.
  - apply N.ltb_lt in E.
    replace ((48 <=? 48 + d) && (48 + d <=? 57)) with true.
    + f_equal. lia.
    + symmetry. apply andb_true_iff. split; apply N.leb_le; lia.
  - apply N.ltb_ge in E.
    replace ((48 <=? 87 + d) && (87 + d <=? 57)) with false.
    + replace ((97 <=? 87 + d) && (87 + d <=? 102)) with true.
      * f_equal. lia.
      * symmetry. apply andb_true_iff. split; apply N.leb_le; lia.
    + symmetry. apply andb_false_iff. right. apply N.leb_gt. lia.
Qed.

Lemma hex4_escape c :
  c < 65536 ->
  hex4 (hex_digit (c / 4096 mod 16)) (hex_digit (c / 256 mod 16))
       (hex_digit (c / 16 mod 16)) (hex_digit (c mod 16)) = Some c.
Proof.
  intros Hc. unfold hex4.
  rewrite !hex_val_digit by (apply N.mod_lt; lia). simpl.
  f_equal.
  pose proof (N.Div0.div_mod c 16) as H1.
  pose proof (N.Div0.div_mod (c / 16) 16) as H2.
  pose proof (N.Div0.div_mod (c / 256) 16) as H3.
  replace (c / 16 / 16) with (c / 256) in H2
    by (rewrite N.Div0.div_div; reflexivity).
  replace (c / 256 / 16) with (c / 4096) in H3
    by (rewrite N.Div0.div_div; reflexivity).
  assert (c / 4096 < 16) by (apply N.Div0.div_lt_upper_bound; lia).
  rewrite (N.mod_small (c / 4096) 16) by lia.
  lia.
Qed.

Lemma parse_chars_escape c tail :
  c < 65536 ->
  parse_chars (unicode_escape c ++ tail)
  = '(t, rest) ← parse_chars tail; Some (c :: t, rest).
Proof.
  intros Hc. unfold unicode_escape. simpl.
  rewrite hex4_escape by done. reflexivity.
Qed.

Lemma parse_chars_unit b c r tail :
  parse_chars (quote_unit b c r ++ tail)
  = '(t, rest) ← parse_chars tail; Some (c :: t, rest).
Proof.
  unfold quote_unit.
  repeat match goal with
         | |- context [if ?c =? ?k then _ else _] =>
             destruct (N.eqb_spec c k); [subst; reflexivity |]
         end.
  destruct (c <? 32) eqn:E32.
  { apply parse_chars_escape. apply N.ltb_lt in E32. lia. }
  destruct (is_high_surrogate c && negb (next_is_low r)) eqn:Eh.
  { apply parse_chars_escape. apply andb_true_iff in Eh as [Eh _].
    apply andb_true_iff in Eh as [_ Eh]. apply N.leb_le in Eh. lia. }
  destruct (is_low_surrogate c && negb b) eqn:El.
  { apply parse_chars_escape. apply andb_true_iff in El as [El _].
    apply andb_true_iff in El as [_ El]. apply N.leb_le in El. lia. }
  simpl.
  destruct (N.eqb_spec c dquote); [done |].
  destruct (N.eqb_spec c backslash); [done |].
  rewrite E32. reflexivity.
Qed.

Lemma parse_chars_quote s : forall b rest,
  parse_chars (quote_units b s ++ dquote :: rest) = Some (s, rest).
Proof.
  induction s as [| c r IH]; intros b rest; [reflexivity |].
  simpl. rewrite <- app_assoc, parse_chars_unit, IH. reflexivity.
Qed.

(** ** Texts written by [JSON.stringify] parse back *)


Lemma starts_value_app s rest : starts_value s -> starts_value (s ++ rest).
Proof. intros (c & t & -> & H). exists c, (t ++ rest). done. Qed.

Lemma starts_value_join p ps :
  starts_value p -> starts_value (join_commas (p :: ps)).
Proof.
  intros (c & t & -> & H). destruct ps as [| p' ps].
  - exists c, t. done.
  - exists c, (t ++ 44 :: join_commas (p' :: ps)). done.
Qed.

Lemma starts_value_quote s rest : starts_value (quote s ++ rest).
Proof. eexists _, _. split; [reflexivity | done]. Qed.

Lemma starts_value_stringify v : plain v -> starts_value (JSON_stringify v).
Proof.
  intros Hp. inversion Hp as [| b | s | l _ | m _ _]; subst.
  - eexists _, _. split; [reflexivity | done].
  - destruct b; (eexists _, _; split; [reflexivity | done]).
  - eexists _, _. split; [reflexivity | done].
  - eexists _, _. split; [reflexivity | done].
  - eexists _, _. split; [reflexivity | done].
Qed.


Lemma parse_elements_join l :
  Forall parses_back l -> Forall plain l -> l <> [] ->
  forall fuel rest,
    (list_sum (map (fun x => S (parse_cost x)) l) <= fuel)%nat ->
    parse_elements fuel (join_commas (map JSON_stringify l) ++ 93 :: rest)
    = Some (l, rest).
Proof.
  induction 1 as [| x l Hx Hl IH]; intros Hp Hne fuel rest Hfuel; [done |].
  apply Forall_cons in Hp as [Hpx Hpl].
  destruct fuel as [| fuel]; [simpl in Hfuel; lia |].
  destruct l as [| y l].
  - simpl in *. rewrite Hx by lia. reflexivity.
  - change (join_commas (map JSON_stringify (x :: y :: l)))
      with (JSON_stringify x ++ 44 :: join_commas (map JSON_stringify (y :: l))).
    rewrite <- app_assoc. cbn [parse_elements].
    rewrite Hx by (simpl in Hfuel; lia).
    cbn -[parse_elements join_commas map].
    rewrite IH; [reflexivity | done | done |].
    simpl in *. lia.
Qed.

Lemma bracket_app (o c : N) (body rest : jsstring) :
  (o :: body ++ [c]) ++ rest = o :: body ++ c :: rest.
Proof. simpl. by rewrite <- app_assoc. Qed.

Lemma quote_app s rest :
  quote s ++ rest = dquote :: quote_units false s ++ dquote :: rest.
Proof. unfold quote. simpl. by rewrite <- app_assoc. Qed.

Lemma parse_members_join m :
  Forall (fun kv => parses_back kv.2) m -> Forall (fun kv => plain kv.2) m ->
  m <> [] ->
  forall fuel rest,
    (list_sum (map (fun kv => S (parse_cost kv.2)) m) <= fuel)%nat ->
    parse_members fuel
      (join_commas (map (fun kv => quote kv.1 ++ 58 :: JSON_stringify kv.2) m)
       ++ 125 :: rest)
    = Some (m, rest).
Proof.
  induction 1 as [| [k x] m Hx Hm IH]; intros Hp Hne fuel rest Hfuel; [done |].
  apply Forall_cons in Hp as [Hpx Hpm].
  destruct fuel as [| fuel]; [simpl in Hfuel; lia |].
  simpl in Hx.
  destruct m as [| kv m].
  - change (join_commas (map (fun kv => quote kv.1 ++ 58 :: JSON_stringify kv.2)
                             [(k, x)]))
      with (quote k ++ 58 :: JSON_stringify x).
    rewrite <- !app_assoc, quote_app.
    cbn -[parse_value quote]. rewrite parse_chars_quote.
    cbn -[parse_value quote].
    rewrite Hx by (simpl in Hfuel; lia). reflexivity.
  - change (join_commas (map (fun kv => quote kv.1 ++ 58 :: JSON_stringify kv.2)
                             ((k, x) :: kv :: m)))
      with ((quote k ++ 58 :: JSON_stringify x)
            ++ 44 :: join_commas
                       (map (fun kv => quote kv.1 ++ 58 :: JSON_stringify kv.2)
                            (kv :: m))).
    rewrite <- !app_assoc, quote_app.
    cbn -[parse_value join_commas map quote].
    rewrite parse_chars_quote.
    cbn -[parse_value join_commas map quote].
    rewrite Hx by (simpl in Hfuel; lia).
    cbn -[parse_value join_commas map quote].
    rewrite IH; [reflexivity | done | done |].
    simpl in *. lia.
Qed.

Lemma parse_value_stringify v : plain v -> parses_back v.
Proof.
  induction v as [| b | d | s | l IH | m IH] using json_ind;
    intros Hp fuel rest Hfuel; inversion Hp as [| | | ? Hl | ? Hcan Hm]; subst;
    (destruct fuel as [| fuel]; [simpl in Hfuel; lia |]).
  - reflexivity.
  - destruct b; reflexivity.
  - cbn [JSON_stringify]. rewrite quote_app. cbn -[parse_chars].
    rewrite parse_chars_quote. reflexivity.
  - destruct l as [| x l]; [reflexivity |].
    assert (Hall : Forall parses_back (x :: l)).
    { clear -IH Hl. induction IH; inversion Hl; subst; constructor; auto. }
    cbn [JSON_stringify]. rewrite bracket_app.
    pose proof (parse_elements_join (x :: l) Hall Hl ltac:(done) fuel rest) as Hpe.
    destruct (starts_value_app _ (93 :: rest)
                (starts_value_join _ (map JSON_stringify l)
                   (starts_value_stringify x ltac:(by inversion Hl))))
      as (c & t & Heq & Hws & H93 & _).
    change (JSON_stringify x :: map JSON_stringify l)
      with (map JSON_stringify (x :: l)) in Heq.
    cbn -[parse_elements join_commas map]. rewrite Heq.
    cbn -[parse_elements join_commas map]. rewrite Hws, H93.
    rewrite <- Heq, Hpe; [reflexivity |].
    simpl in *. lia.
  - destruct m as [| kv m]; [reflexivity |].
    assert (Hall : Forall (fun kv => parses_back kv.2) (kv :: m)).
    { clear -IH Hm. induction IH; inversion Hm; subst; constructor; auto. }
    cbn [JSON_stringify]. rewrite bracket_app.
    pose proof (parse_members_join (kv :: m) Hall Hm ltac:(done) fuel rest) as Hpm.
    remember (join_commas _ ++ _) as text eqn:Htext in *.
    assert (Hstart : starts_value text).
    { subst text. apply starts_value_app. apply (starts_value_join _ _).
      apply (starts_value_quote kv.1). }
    destruct Hstart as (c & t & Heq & Hws & _ & H125).
    cbn -[parse_members]. rewrite Heq.
    cbn -[parse_members]. rewrite Hws, H125.
    rewrite <- Heq, Hpm; [| simpl in *; lia].
    cbn -[make_object]. unfold make_object. rewrite Hcan. reflexivity.
Qed.

Lemma join_commas_length (parts : list jsstring) :
  (list_sum (map (fun p => S (length p)) parts)
   <= S (length (join_commas parts)))%nat.
Proof.
  induction parts as [| p [| q r] IH]; [simpl; lia | simpl; lia |].
  change (join_commas (p :: q :: r)) with (p ++ 44 :: join_commas (q :: r)).
  rewrite length_app. simpl in *. lia.
Qed.

Lemma list_sum_le {A} (f g : A -> nat) (l : list A) :
  Forall (fun x => f x <= g x)%nat l ->
  (list_sum (map f l) <= list_sum (map g l))%nat.
Proof. induction 1; simpl; lia. Qed.

Lemma parse_cost_length v :
  plain v -> (parse_cost v <= length (JSON_stringify v))%nat.
Proof.
  induction v as [| b | d | s | l IH | m IH] using json_ind;
    intros Hp; inversion Hp as [| | | ? Hl | ? Hcan Hm]; subst.
  - simpl. lia.
  - destruct b; simpl; lia.
  - simpl. lia.
  - cbn [parse_cost JSON_stringify length]. rewrite length_app. simpl.
    pose proof (join_commas_length (map JSON_stringify l)) as Hj.
    rewrite map_map in Hj.
    assert (list_sum (map (fun x => S (parse_cost x)) l)
            <= list_sum (map (fun x => S (length (JSON_stringify x))) l))%nat.
    { apply list_sum_le. rewrite Forall_forall in *.
      intros x Hx. specialize (IH x Hx (Hl x Hx)). lia. }
    lia.
  - cbn [parse_cost JSON_stringify length]. rewrite length_app. cbn [length].
    pose proof (join_commas_length
                  (map (fun kv => quote kv.1 ++ 58 :: JSON_stringify kv.2) m))
      as Hj.
    rewrite map_map in Hj.
    assert (list_sum (map (fun kv => S (parse_cost kv.2)) m)
            <= list_sum
                 (map (fun kv => S (length (quote kv.1 ++ 58%N :: JSON_stringify kv.2)))
                      m))%nat.
    { apply list_sum_le. rewrite Forall_forall in *.
      intros kv Hkv. specialize (IH kv Hkv (Hm kv Hkv)).
      rewrite length_app. simpl. lia. }
    lia.
Qed.

(** Reading back what was written gives the value that was written. *)
Lemma JSON_parse_stringify v :
  plain v -> JSON_parse (JSON_stringify v) = Some v.
Proof.
  intros Hp. unfold JSON_parse.
  pose proof (parse_value_stringify v Hp (S (length (JSON_stringify v))) [])
    as H.
  rewrite app_nil_r in H. rewrite H; [reflexivity |].
  pose proof (parse_cost_length v Hp). lia.
Qed.

Lemma JSON_stringify_nonempty v : plain v -> JSON_stringify v <> [].
Proof.
  intros Hp Heq. destruct (starts_value_stringify v Hp) as (c & t & H & _).
  congruence.
Qed.

(** ** The fuel of the parser *)

Lemma skip_ws_length s : (length (skip_ws s) <= length s)%nat.
Proof.
  induction s as [| c r IH]; [done |]. simpl.
  destruct (is_json_ws c); simpl; lia.
Qed.

Lemma skip_ws_cons s c r : skip_ws s = c :: r -> (length r < length s)%nat.
Proof. intros H. pose proof (skip_ws_length s) as Hl. rewrite H in Hl. simpl in Hl. lia. Qed.

Lemma parse_chars_length s : forall t r,
  parse_chars s = Some (t, r) -> (length r < length s)%nat.
Proof.
  induction s as [s IH] using (induction_ltof1 _ (@length N)).
  unfold ltof in IH. intros t r H.
  destruct s as [| c s]; [done |]. cbn [parse_chars] in H.
  destruct (c =? dquote); [injection H as <- <-; simpl; lia |].
  destruct (c =? backslash).
  - destruct s as [| e r1]; [done |].
    destruct (e =? 117).
    + destruct r1 as [| h1 [| h2 [| h3 [| h4 r2]]]]; try done.
      destruct (hex4 h1 h2 h3 h4); [| done]. cbn [mbind option_bind] in H.
      destruct (parse_chars r2) as [[t' r'] |] eqn:E; [| done].
      injection H as <- <-. apply IH in E; simpl in *; lia.
    + destruct (simple_escape e); [| done]. cbn [mbind option_bind] in H.
      destruct (parse_chars r1) as [[t' r'] |] eqn:E; [| done].
      injection H as <- <-. apply IH in E; simpl in *; lia.
  - destruct (c <? 32); [done |].
    destruct (parse_chars s) as [[t' r'] |] eqn:E; [| done].
    cbn [mbind option_bind] in H.
    injection H as <- <-. apply IH in E; simpl in *; lia.
Qed.

Lemma take_digits_length s ds r :
  take_digits s = (ds, r) -> (length r <= length s)%nat.
Proof.
  revert ds r. induction s as [| c s IH]; intros ds r H.
  - by injection H as <- <-.
  - simpl in H. destruct ((48 <=? c) && (c <=? 57)).
    + destruct (take_digits s) as [ds' r'] eqn:E. injection H as <- <-.
      specialize (IH _ _ eq_refl). simpl. lia.
    + by injection H as <- <-.
Qed.

Lemma parse_int_length s ip r :
  parse_int s = Some (ip, r) -> (length r < length s)%nat.
Proof.
  destruct s as [| c s]; [done |]. unfold parse_int.
  destruct (c =? 48); [intros [= <- <-]; simpl; lia |].
  destruct ((49 <=? c) && (c <=? 57)); [| done].
  destruct (take_digits s) as [ds r'] eqn:E. intros [= <- <-].
  apply take_digits_length in E. simpl. lia.
Qed.

Lemma parse_frac_length s fp r :
  parse_frac s = Some (fp, r) -> (length r <= length s)%nat.
Proof.
  destruct s as [| c s]; [by intros [= <- <-] |]. unfold parse_frac.
  destruct (c =? 46); [| by intros [= <- <-]].
  destruct (take_digits s) as [[| d ds] r'] eqn:E; [done |]. intros [= <- <-].
  apply take_digits_length in E. simpl. lia.
Qed.

Lemma parse_exp_digits_length neg s e r :
  parse_exp_digits neg s = Some (e, r) -> (length r <= length s)%nat.
Proof.
  unfold parse_exp_digits.
  destruct (take_digits s) as [[| d ds] r'] eqn:E; [done |]. intros [= <- <-].
  by apply take_digits_length in E.
Qed.

Lemma parse_exp_length s e r :
  parse_exp s = Some (e, r) -> (length r <= length s)%nat.
Proof.
  destruct s as [| c s]; [by intros [= <- <-] |]. unfold parse_exp.
  destruct ((c =? 101) || (c =? 69)); [| by intros [= <- <-]].
  destruct s as [| sg r']; [done |].
  destruct (sg =? 43); [| destruct (sg =? 45)]; intros H;
    apply parse_exp_digits_length in H; simpl in *; lia.
Qed.

Lemma parse_unsigned_length neg s d r :
  parse_unsigned neg s = Some (d, r) -> (length r < length s)%nat.
Proof.
  unfold parse_unsigned. intros H.
  destruct (parse_int s) as [[ip r1] |] eqn:E1; [| done].
  cbn [mbind option_bind] in H.
  destruct (parse_frac r1) as [[fp r2] |] eqn:E2; [| done].
  cbn [mbind option_bind] in H.
  destruct (parse_exp r2) as [[e r3] |] eqn:E3; [| done].
  cbn [mbind option_bind] in H. injection H as <- <-.
  apply parse_int_length in E1. apply parse_frac_length in E2.
  apply parse_exp_length in E3. lia.
Qed.

Lemma parse_number_length s d r :
  parse_number s = Some (d, r) -> (length r < length s)%nat.
Proof.
  destruct s as [| c s]; [done |]. unfold parse_number.
  destruct (c =? 45); intros H; apply parse_unsigned_length in H; simpl in *; lia.
Qed.

Lemma strip_prefix_length p : forall s r,
  strip_prefix p s = Some r -> length s = (length p + length r)%nat.
Proof.
  induction p as [| a p IH]; intros s r H; [by injection H as <- |].
  destruct s as [| b s]; [done |]. simpl in H.
  destruct (a =? b); [| done]. apply IH in H. simpl. lia.
Qed.

Lemma parse_literal_length word v s v' r :
  word <> [] -> parse_literal word v s = Some (v', r) ->
  (length r < length s)%nat.
Proof.
  unfold parse_literal. intros Hne H.
  destruct (strip_prefix word s) as [r' |] eqn:E; [| done].
  injection H as <- <-. apply strip_prefix_length in E.
  destruct word; [done |]. simpl in E. lia.
Qed.

Lemma parse_scalar_length c r v rest :
  parse_scalar c r = Some (v, rest) -> (length rest < length (c :: r))%nat.
Proof.
  unfold parse_scalar. intros H.
  destruct (c =? dquote).
  { destruct (parse_chars r) as [[t r'] |] eqn:E; [| done].
    injection H as <- <-. apply parse_chars_length in E. simpl. lia. }
  destruct (c =? 116); [by apply parse_literal_length in H |].
  destruct (c =? 102); [by apply parse_literal_length in H |].
  destruct (c =? 110); [by apply parse_literal_length in H |].
  destruct (parse_number (c :: r)) as [[d r'] |] eqn:E; [| done].
  injection H as <- <-. by apply parse_number_length in E.
Qed.

(** A successful parse consumes something. *)
Lemma parse_consumes n :
  (forall s v r, parse_value n s = Some (v, r) -> (length r < length s)%nat)
  /\ (forall s vs r, parse_elements n s = Some (vs, r) ->
                     (length r < length s)%nat)
  /\ (forall s kvs r, parse_members n s = Some (kvs, r) ->
                      (length r < length s)%nat).
Proof.
  induction n as [| n (IHv & IHe & IHm)]; [repeat split; intros; discriminate |].
  repeat split.
  - intros s v r H. cbn [parse_value] in H.
    destruct (skip_ws s) as [| c r0] eqn:Hs; [done |].
    apply skip_ws_cons in Hs.
    destruct (c =? 123).
    { destruct (skip_ws r0) as [| c' r'] eqn:Hs'; [done |].
      apply skip_ws_cons in Hs'.
      destruct (c' =? 125); [injection H as <- <-; lia |].
      destruct (parse_members n r0) as [[kvs rest] |] eqn:E; [| done].
      injection H as <- <-. apply IHm in E. lia. }
    destruct (c =? 91).
    { destruct (skip_ws r0) as [| c' r'] eqn:Hs'; [done |].
      apply skip_ws_cons in Hs'.
      destruct (c' =? 93); [injection H as <- <-; lia |].
      destruct (parse_elements n r0) as [[vs rest] |] eqn:E; [| done].
      injection H as <- <-. apply IHe in E. lia. }
    apply (parse_scalar_length c r0) in H. simpl in H. lia.
  - intros s vs r H. cbn [parse_elements] in H.
    destruct (parse_value n s) as [[v r1] |] eqn:E; [| done].
    cbn [mbind option_bind] in H. apply IHv in E.
    destruct (skip_ws r1) as [| c r2] eqn:Hs; [done |].
    apply skip_ws_cons in Hs.
    destruct (c =? 44).
    + destruct (parse_elements n r2) as [[vs' rest] |] eqn:E'; [| done].
      injection H as <- <-. apply IHe in E'. lia.
    + destruct (c =? 93); [| done]. injection H as <- <-. lia.
  - intros s kvs r H. cbn [parse_members] in H.
    destruct (skip_ws s) as [| q r0] eqn:Hs; [done |].
    apply skip_ws_cons in Hs.
    destruct (q =? dquote); [| done].
    destruct (parse_chars r0) as [[k r1] |] eqn:Ek; [| done].
    apply parse_chars_length in Ek. cbn [mbind option_bind] in H.
    destruct (skip_ws r1) as [| colon r2] eqn:Hs1; [done |].
    apply skip_ws_cons in Hs1.
    destruct (colon =? 58); [| done].
    destruct (parse_value n r2) as [[v r3] |] eqn:E; [| done].
    cbn [mbind option_bind] in H. apply IHv in E.
    destruct (skip_ws r3) as [| c r4] eqn:Hs3; [done |].
    apply skip_ws_cons in Hs3.
    destruct (c =? 44).
    + destruct (parse_members n r4) as [[kvs' rest] |] eqn:E'; [| done].
      injection H as <- <-. apply IHm in E'. lia.
    + destruct (c =? 125); [| done]. injection H as <- <-. lia.
Qed.

(** As much fuel as the parse consumes characters is enough. *)
Lemma parse_fuel_consumed n :
  (forall s v r m, parse_value n s = Some (v, r) ->
                   (length s - length r <= m)%nat ->
                   parse_value m s = Some (v, r))
  /\ (forall s vs r m, parse_elements n s = Some (vs, r) ->
                       (length s - length r <= m)%nat ->
                       parse_elements m s = Some (vs, r))
  /\ (forall s kvs r m, parse_members n s = Some (kvs, r) ->
                        (length s - length r <= m)%nat ->
                        parse_members m s = Some (kvs, r)).
Proof.
  induction n as [| n (IHv & IHe & IHm)]; [repeat split; intros; discriminate |].
  destruct (parse_consumes n) as (Lv & Le & Lm).
  destruct (parse_consumes (S n)) as (Lv' & Le' & Lm').
  repeat split.
  - intros s v r m H Hm. pose proof (Lv' _ _ _ H) as Hlt.
    destruct m as [| m]; [lia |]. cbn [parse_value] in H |- *.
    destruct (skip_ws s) as [| c r0] eqn:Hs; [done |].
    apply skip_ws_cons in Hs.
    destruct (c =? 123).
    { destruct (skip_ws r0) as [| c' r'] eqn:Hs'; [done |].
      destruct (c' =? 125); [done |].
      destruct (parse_members n r0) as [[kvs rest] |] eqn:E; [| done].
      injection H as <- <-. rewrite (IHm _ _ _ m E) by lia. reflexivity. }
    destruct (c =? 91).
    { destruct (skip_ws r0) as [| c' r'] eqn:Hs'; [done |].
      destruct (c' =? 93); [done |].
      destruct (parse_elements n r0) as [[vs rest] |] eqn:E; [| done].
      injection H as <- <-. rewrite (IHe _ _ _ m E) by lia. reflexivity. }
    exact H.
  - intros s vs r m H Hm. pose proof (Le' _ _ _ H) as Hlt.
    destruct m as [| m]; [lia |]. cbn [parse_elements] in H |- *.
    destruct (parse_value n s) as [[v r1] |] eqn:E; [| done].
    cbn [mbind option_bind] in H. pose proof (Lv _ _ _ E) as Hl1.
    destruct (skip_ws r1) as [| c r2] eqn:Hs; [done |].
    pose proof (skip_ws_cons _ _ _ Hs) as Hl2.
    destruct (c =? 44) eqn:Hc.
    + destruct (parse_elements n r2) as [[vs' rest] |] eqn:E'; [| done].
      injection H as <- <-. pose proof (Le _ _ _ E') as Hl3.
      rewrite (IHv _ _ _ m E) by lia. cbn [mbind option_bind].
      rewrite Hs, Hc, (IHe _ _ _ m E') by lia. reflexivity.
    + destruct (c =? 93) eqn:Hc'; [| done]. injection H as <- <-.
      rewrite (IHv _ _ _ m E) by lia. cbn [mbind option_bind].
      by rewrite Hs, Hc, Hc'.
  - intros s kvs r m H Hm. pose proof (Lm' _ _ _ H) as Hlt.
    destruct m as [| m]; [lia |]. cbn [parse_members] in H |- *.
    destruct (skip_ws s) as [| q r0] eqn:Hs; [done |].
    apply skip_ws_cons in Hs.
    destruct (q =? dquote); [| done].
    destruct (parse_chars r0) as [[k r1] |] eqn:Ek; [| done].
    apply parse_chars_length in Ek. cbn [mbind option_bind] in H |- *.
    destruct (skip_ws r1) as [| colon r2] eqn:Hs1; [done |].
    apply skip_ws_cons in Hs1.
    destruct (colon =? 58); [| done].
    destruct (parse_value n r2) as [[v r3] |] eqn:E; [| done].
    cbn [mbind option_bind] in H. pose proof (Lv _ _ _ E) as Hl3.
    destruct (skip_ws r3) as [| c r4] eqn:Hs3; [done |].
    pose proof (skip_ws_cons _ _ _ Hs3) as Hl4.
    destruct (c =? 44) eqn:Hc.
    + destruct (parse_members n r4) as [[kvs' rest] |] eqn:E'; [| done].
      injection H as <- <-. pose proof (Lm _ _ _ E') as Hl5.
      rewrite (IHv _ _ _ m E) by lia. cbn [mbind option_bind].
      rewrite Hs3, Hc, (IHm _ _ _ m E') by lia. reflexivity.
    + destruct (c =? 125) eqn:Hc'; [| done]. injection H as <- <-.
      rewrite (IHv _ _ _ m E) by lia. cbn [mbind option_bind].
      by rewrite Hs3, Hc, Hc'.
Qed.

(** The fuel [JSON_parse] supplies is always enough: whatever a parse
    with any fuel returns, [JSON_parse] returns. *)
Lemma JSON_parse_fuel n text v rest :
  parse_value n text = Some (v, rest) -> skip_ws rest = [] ->
  JSON_parse text = Some v.
Proof.
  intros H Hrest. unfold JSON_parse.
  destruct (parse_fuel_consumed n) as (Hv & _).
  rewrite (Hv _ _ _ (S (length text)) H) by lia. by rewrite Hrest.
Qed.

(** ** The declared types denote plain values *)

Lemma plain_strings (l : list jsstring) : Forall plain (map JStr l).
Proof. induction l; constructor; [constructor | done]. Qed.

Lemma CareerRecommendation_json_eq r :
  CareerRecommendation_json r
  = JObj [(str "careerPaths", JArr (map JStr (careerPaths r)));
          (str "internshipRoles", JArr (map JStr (internshipRoles r)));
          (str "skillsToLearn", JArr (map JStr (skillsToLearn r)));
          (str "summary", JStr (summary r))].
Proof. reflexivity. Qed.

Lemma ResumeData_json_eq d :
  ResumeData_json d
  = JObj [(str "education", JStr (education d)); (str "skills", JStr (skills d));
          (str "interests", JStr (interests d))].
Proof. reflexivity. Qed.

Lemma HistoryItem_json_eq h :
  HistoryItem_json h
  = JObj [(str "id", JStr (id h)); (str "title", JStr (title h));
          (str "date", JStr (date h));
          (str "recommendation", CareerRecommendation_json (recommendation h));
          (str "inputs", ResumeData_json (inputs h))].
Proof. reflexivity. Qed.

Lemma plain_CareerRecommendation r : plain (CareerRecommendation_json r).
Proof.
  rewrite CareerRecommendation_json_eq.
  apply plain_obj; [reflexivity |].
  repeat (apply Forall_cons; split); try apply Forall_nil; simpl;
    try (apply plain_arr, plain_strings); done || constructor.
Qed.

Lemma plain_ResumeData d : plain (ResumeData_json d).
Proof.
  rewrite ResumeData_json_eq.
  apply plain_obj; [reflexivity |].
  repeat (apply Forall_cons; split); try apply Forall_nil; simpl; constructor.
Qed.

Lemma plain_HistoryItem h : plain (HistoryItem_json h).
Proof.
  rewrite HistoryItem_json_eq.
  apply plain_obj; [reflexivity |].
  repeat (apply Forall_cons; split); try apply Forall_nil; simpl;
    try apply plain_CareerRecommendation; try apply plain_ResumeData;
    constructor.
Qed.

Lemma plain_history l : plain (history_json l).
Proof.
  apply plain_arr. induction l; constructor; [apply plain_HistoryItem | done].
Qed.

(** ** trim *)

Lemma trimStart_blank s : blank s -> trimStart s = [].
Proof. induction 1 as [| c s Hc _ IH]; [done |]. simpl. by rewrite Hc. Qed.

Lemma trim_blank s : blank s -> trim s = [].
Proof. intros H. unfold trim. by rewrite trimStart_blank. Qed.

Lemma trimStart_content s : has_content s -> has_content (trimStart s).
Proof.
  induction 1 as [c s Hc | c s _ IH]; simpl.
  - rewrite Hc. by left.
  - destruct (is_js_whitespace c) eqn:E; [done |]. by left.
Qed.

Lemma has_content_nonempty s : has_content s -> s <> [].
Proof. by destruct 1. Qed.

Lemma trim_content s : has_content s -> trim s <> [].
Proof.
  intros H. unfold trim, trimEnd. apply trimStart_content in H.
  intros Heq. apply (f_equal reverse) in Heq.
  rewrite reverse_involutive in Heq. simpl in Heq.
  eapply has_content_nonempty; [| exact Heq].
  apply trimStart_content. unfold has_content in *.
  rewrite Exists_exists in *. destruct H as (c & Hin & Hc).
  exists c. split; [| done]. by apply elem_of_reverse.
Qed.

(** ** The storage *)

Lemma fits_again k v s s' : Storage_setItem k v s = inr s' -> fits k v s'.
Proof.
  unfold Storage_setItem. destruct (decide _) as [Hf |]; [| done].
  intros [= <-]. unfold fits in *. simpl. by rewrite insert_insert_eq.
Qed.

Lemma Storage_setItem_fits k v s :
  fits k v s ->
  Storage_setItem k v s = inr {| items := <[k:=v]> (items s); quota := quota s |}.
Proof. intros H. unfold Storage_setItem. by rewrite decide_True. Qed.

Lemma Storage_setItem_full k v s :
  ~ fits k v s -> Storage_setItem k v s = inl QuotaExceededError.
Proof. intros H. unfold Storage_setItem. by rewrite decide_False. Qed.

Lemma Storage_get_set k v s s' :
  Storage_setItem k v s = inr s' -> Storage_getItem k s' = Some v.
Proof.
  unfold Storage_setItem. destruct (decide _); [| done].
  intros [= <-]. unfold Storage_getItem. simpl. apply lookup_insert_eq.
Qed.

(** ** What the handlers compute *)

Lemma saveToLocalStorage_spec h w :
  saveToLocalStorage h w =
  match Storage_setItem storage_key (JSON_stringify h) (localStorage w) with
  | inr s' =>
      ({| app := with_history h (app w); localStorage := s';
          console := console w |}, inr tt)
  | inl e => (w, inl e)
  end.
Proof.
  unfold saveToLocalStorage, mbind, M_bind, localStorage_setItem.
  destruct (Storage_setItem _ _ _); reflexivity.
Qed.

Lemma handleSave_spec uuid now w :
  handleSave uuid now w =
  if negb (truthy (st_recommendation (app w)))
     || negb (truthy (JStr (trim (st_saveTitle (app w)))))
  then (w, inr tt)
  else
    match spread (st_history (app w)) with
    | inl e => (w, inl e)
    | inr rest =>
        let h := JArr (newItem uuid now (app w) :: rest) in
        match Storage_setItem storage_key (JSON_stringify h) (localStorage w) with
        | inr s' =>
            ({| app := saved_state h (app w); localStorage := s';
                console := console w |}, inr tt)
        | inl e => (w, inl e)
        end
    end.
Proof.
  unfold handleSave, mbind, M_bind, read_state.
  destruct (_ || _); [reflexivity |].
  unfold lift. destruct (spread _) as [e | rest]; [reflexivity |].
  cbv zeta. rewrite saveToLocalStorage_spec.
  destruct (Storage_setItem _ _ _); reflexivity.
Qed.

Lemma deleteHistoryItem_spec i w :
  deleteHistoryItem i w =
  match filter_history (st_history (app w)) i with
  | inl e => (w, inl e)
  | inr h =>
      match Storage_setItem storage_key (JSON_stringify h) (localStorage w) with
      | inr s' =>
          ({| app := with_history h (app w); localStorage := s';
              console := console w |}, inr tt)
      | inl e => (w, inl e)
      end
  end.
Proof.
  unfold deleteHistoryItem, mbind, M_bind, read_state, lift.
  destruct (filter_history _ _); [reflexivity |].
  apply saveToLocalStorage_spec.
Qed.

Lemma loadHistory_spec w :
  loadHistory w =
  match Storage_getItem storage_key (localStorage w) with
  | Some (c :: t) =>
      match JSON_parse (c :: t) with
      | Some h =>
          ({| app := with_history h (app w); localStorage := localStorage w;
              console := console w |}, inr tt)
      | None =>
          ({| app := app w; localStorage := localStorage w;
              console := console w ++ [(str "Failed to parse history", SyntaxError)] |},
           inr tt)
      end
  | _ => (w, inr tt)
  end.
Proof.
  unfold loadHistory, loadHistory_effect, mbind, M_bind, localStorage_getItem.
  destruct (Storage_getItem _ _) as [[| c t] |]; try reflexivity.
  unfold try_catch, JSON_parse_or_throw, mbind, M_bind.
  destruct (JSON_parse (c :: t)); reflexivity.
Qed.

(** A read that the browser denies leaves the effect as it is thrown,
    before anything is changed. *)
Lemma loadHistory_effect_denied w :
  loadHistory_effect false w = (w, inl SecurityError).
Proof. reflexivity. Qed.

(** ** geminiService.ts *)

Lemma getCareerRecommendations_spec ai e s i w :
  getCareerRecommendations ai e s i w =
  match ai (getCareerRecommendations_request e s i) with
  | inl err => (w, inl err)
  | inr resp =>
      match JSON_parse (text_or_empty_object resp) with
      | Some v => (w, inr v)
      | None =>
          (logged (str "Failed to parse Gemini response") SyntaxError w,
           inl generation_failed)
      end
  end.
Proof.
  unfold getCareerRecommendations, generateContent, lift, mbind, M_bind.
  destruct (ai _) as [err | resp]; [reflexivity |].
  unfold try_catch, JSON_parse_or_throw.
  destruct (JSON_parse _); reflexivity.
Qed.

Lemma scanResume_spec ai b m w :
  scanResume ai b m w =
  match ai (scanResume_request b m) with
  | inl err => (w, inl err)
  | inr resp =>
      match JSON_parse (text_or_empty_object resp) with
      | Some v => (w, inr v)
      | None =>
          (logged (str "Failed to parse scan response") SyntaxError w,
           inl scan_failed)
      end
  end.
Proof.
  unfold scanResume, generateContent, lift, mbind, M_bind.
  destruct (ai _) as [err | resp]; [reflexivity |].
  unfold try_catch, JSON_parse_or_throw.
  destruct (JSON_parse _); reflexivity.
Qed.

Lemma text_or_empty_object_text resp t :
  text resp = Some t -> t <> [] -> text_or_empty_object resp = t.
Proof. unfold text_or_empty_object. intros -> Ht. by destruct t. Qed.

Lemma text_or_empty_object_none resp :
  text resp = None \/ text resp = Some [] ->
  text_or_empty_object resp = str "{}".
Proof. unfold text_or_empty_object. by intros [-> | ->]. Qed.

Lemma forallb_strings (l : list jsstring) :
  forallb (conforms TypeSTRING) (map JStr l) = true.
Proof. induction l; [done |]. simpl. done. Qed.

Lemma conforms_recommendation_fields a b c s :
  conforms (TypeARRAY TypeSTRING) a = true ->
  conforms (TypeARRAY TypeSTRING) b = true ->
  conforms (TypeARRAY TypeSTRING) c = true ->
  conforms getCareerRecommendations_schema
    (JObj [(str "careerPaths", a); (str "internshipRoles", b);
           (str "skillsToLearn", c); (str "summary", JStr s)]) = true.
Proof.
  intros Ha Hb Hc. vm_compute in Ha, Hb, Hc |- *.
  rewrite Ha, Hb, Hc. reflexivity.
Qed.

Lemma conforms_CareerRecommendation r :
  conforms getCareerRecommendations_schema (CareerRecommendation_json r) = true.
Proof.
  rewrite CareerRecommendation_json_eq.
  apply conforms_recommendation_fields; apply forallb_strings.
Qed.

Lemma conforms_ResumeData d :
  conforms scanResume_schema (ResumeData_json d) = true.
Proof. reflexivity. Qed.

Lemma returned_text_parses resp t v :
  JSON_parse (text_or_empty_object resp) = Some v ->
  text resp = Some t -> t <> [] -> JSON_parse t = Some v.
Proof. intros Hparse Ht Hne. by rewrite (text_or_empty_object_text _ _ Ht Hne) in Hparse. Qed.

(** C1 (amended).  Whenever [getCareerRecommendations] returns, for any
    profile, the provider call succeeded and nothing was logged; when
    the response carries a text, the returned value is what
    [JSON.parse] gives for that text, so it has the four fields, the
    three lists being lists of strings, when that text is the text of a
    recommendation. *)
Theorem getCareerRecommendations_returns ai e s i w w' v :
  getCareerRecommendations ai e s i w = (w', inr v) ->
  exists resp,
    ai (getCareerRecommendations_request e s i) = inr resp
    /\ w' = w
    /\ (forall t, text resp = Some t -> t <> [] -> JSON_parse t = Some v)
    /\ (forall r,
          text resp = Some (JSON_stringify (CareerRecommendation_json r)) ->
          v = CareerRecommendation_json r
          /\ conforms getCareerRecommendations_schema v = true).
Proof.
  rewrite getCareerRecommendations_spec.
  destruct (ai _) as [err | resp]; [done |].
  destruct (JSON_parse _) as [v0 |] eqn:Hparse; [| done].
  intros [= <- <-]. exists resp.
  split; [reflexivity |]. split; [reflexivity |]. split.
  - intros t Ht Hne. by apply (returned_text_parses resp).
  - intros r Hr.
    pose proof (plain_CareerRecommendation r) as Hp.
    apply (returned_text_parses resp _ _ Hparse) in Hr;
      [| by apply JSON_stringify_nonempty].
    rewrite JSON_parse_stringify in Hr by done. injection Hr as <-.
    split; [reflexivity | apply conforms_CareerRecommendation].
Qed.

(** A provider that answers with the text of the sample
    recommendation: the call returns that recommendation. *)
Lemma getCareerRecommendations_returns_witness :
  exists resp,
    answering (JSON_stringify (CareerRecommendation_json sample_recommendation))
      (getCareerRecommendations_request
         (str "3rd Year B.Tech in ECE") (str "Verilog, Arduino, Python")
         (str "VLSI, Embedded Systems")) = inr resp
    /\ conforms getCareerRecommendations_schema
         (CareerRecommendation_json sample_recommendation) = true.
Proof.
  destruct (getCareerRecommendations_returns
              (answering (JSON_stringify
                            (CareerRecommendation_json sample_recommendation)))
              (str "3rd Year B.Tech in ECE") (str "Verilog, Arduino, Python")
              (str "VLSI, Embedded Systems") sample_world sample_world
              (CareerRecommendation_json sample_recommendation))
    as (resp & Hai & _ & _ & Htyped).
  - vm_compute. reflexivity.
  - exists resp. split; [exact Hai |].
    apply (Htyped sample_recommendation). by injection Hai as <-.
Defined.

(** C1, as stated, fails: with all three profile fields non-empty, a
    response whose text is an object with a summary only is returned as
    it is, without the three lists; and a response without text makes
    the call return the empty object. *)
Lemma getCareerRecommendations_incomplete :
  str "3rd Year B.Tech in ECE" <> []
  /\ str "Verilog, Arduino, Python" <> []
  /\ str "VLSI, Embedded Systems" <> []
  /\ getCareerRecommendations (answering summary_only_text)
       (str "3rd Year B.Tech in ECE") (str "Verilog, Arduino, Python")
       (str "VLSI, Embedded Systems") sample_world
     = (sample_world, inr (JObj [(str "summary", JStr (str "ok"))]))
  /\ prop_get [(str "summary", JStr (str "ok"))] (str "careerPaths") = None
  /\ conforms getCareerRecommendations_schema
       (JObj [(str "summary", JStr (str "ok"))]) = false
  /\ getCareerRecommendations silent_provider
       (str "3rd Year B.Tech in ECE") (str "Verilog, Arduino, Python")
       (str "VLSI, Embedded Systems") sample_world
     = (sample_world, inr (JObj []))
  /\ getCareerRecommendations (answering [])
       (str "3rd Year B.Tech in ECE") (str "Verilog, Arduino, Python")
       (str "VLSI, Embedded Systems") sample_world
     = (sample_world, inr (JObj []))
  /\ conforms getCareerRecommendations_schema (JObj []) = false.
Proof. repeat split; done. Qed.

(** C2 (amended).  When the provider call fails,
    [getCareerRecommendations] throws the provider's own error and logs
    nothing.  When the provider answers with a text, the call either
    returns the value parsed from it, whatever its shape, or, the text
    not being JSON, logs the failure and throws the "generation failed"
    error. *)
Theorem getCareerRecommendations_outcomes ai e s i w :
  (forall err,
      ai (getCareerRecommendations_request e s i) = inl err ->
      getCareerRecommendations ai e s i w = (w, inl err))
  /\ (forall resp t,
        ai (getCareerRecommendations_request e s i) = inr resp ->
        text resp = Some t -> t <> [] ->
        (exists v, JSON_parse t = Some v
                   /\ getCareerRecommendations ai e s i w = (w, inr v))
        \/ (JSON_parse t = None
            /\ getCareerRecommendations ai e s i w
               = (logged (str "Failed to parse Gemini response") SyntaxError w,
                  inl generation_failed))).
Proof.
  rewrite getCareerRecommendations_spec. split.
  - by intros err ->.
  - intros resp t -> Ht Hne.
    rewrite (text_or_empty_object_text _ _ Ht Hne).
    destruct (JSON_parse t) as [v |]; [left; by exists v | by right].
Qed.

(** A text that is not JSON: the failure is logged and the "generation
    failed" error thrown. *)
Lemma getCareerRecommendations_outcomes_witness :
  getCareerRecommendations (answering (str "Sorry, I cannot help."))
    (str "B.Tech") (str "Verilog") (str "VLSI") sample_world
  = (logged (str "Failed to parse Gemini response") SyntaxError sample_world,
     inl generation_failed).
Proof.
  destruct (getCareerRecommendations_outcomes
              (answering (str "Sorry, I cannot help."))
              (str "B.Tech") (str "Verilog") (str "VLSI") sample_world)
    as [_ Htext].
  destruct (Htext {| text := Some (str "Sorry, I cannot help.") |}
                  (str "Sorry, I cannot help."))
    as [(v & Hv & _) | [_ Hrun]].
  - reflexivity.
  - reflexivity.
  - discriminate.
  - vm_compute in Hv. discriminate Hv.
  - exact Hrun.
Defined.

(** C2, as stated, fails twice: a failing provider call surfaces the
    provider's error, not the "generation failed" one, and a response
    that is JSON of another shape is returned as it is. *)
Lemma getCareerRecommendations_not_all_or_nothing :
  (getCareerRecommendations failing_provider
     (str "B.Tech") (str "Verilog") (str "VLSI") sample_world
   = (sample_world, inl (ProviderError (str "fetch failed")))
   /\ ProviderError (str "fetch failed") <> generation_failed)
  /\ (getCareerRecommendations (answering summary_only_text)
        (str "B.Tech") (str "Verilog") (str "VLSI") sample_world
      = (sample_world, inr (JObj [(str "summary", JStr (str "ok"))]))
      /\ conforms getCareerRecommendations_schema
           (JObj [(str "summary", JStr (str "ok"))]) = false).
Proof. repeat split; done. Qed.

(** C8 (amended).  [scanResume] follows the same policy with an error
    of its own.  When the provider call fails it throws the provider's
    error.  When the provider answers with a text it either returns the
    value parsed from it, which is a complete profile when the text is
    that of one, or, the text not being JSON, logs the failure and
    throws the "scan failed" error, which differs from the "generation
    failed" one. *)
Theorem scanResume_outcomes ai b m w :
  (forall err,
      ai (scanResume_request b m) = inl err ->
      scanResume ai b m w = (w, inl err))
  /\ (forall resp t,
        ai (scanResume_request b m) = inr resp ->
        text resp = Some t -> t <> [] ->
        (exists v, JSON_parse t = Some v /\ scanResume ai b m w = (w, inr v))
        \/ (JSON_parse t = None
            /\ scanResume ai b m w
               = (logged (str "Failed to parse scan response") SyntaxError w,
                  inl scan_failed)))
  /\ (forall resp d,
        ai (scanResume_request b m) = inr resp ->
        text resp = Some (JSON_stringify (ResumeData_json d)) ->
        scanResume ai b m w = (w, inr (ResumeData_json d))
        /\ conforms scanResume_schema (ResumeData_json d) = true)
  /\ scan_failed <> generation_failed.
Proof.
  rewrite scanResume_spec. split; [| split; [| split]].
  - by intros err ->.
  - intros resp t -> Ht Hne.
    rewrite (text_or_empty_object_text _ _ Ht Hne).
    destruct (JSON_parse t) as [v |]; [left; by exists v | by right].
  - intros resp d -> Ht.
    pose proof (plain_ResumeData d) as Hp.
    rewrite (text_or_empty_object_text _ _ Ht)
      by by apply JSON_stringify_nonempty.
    rewrite JSON_parse_stringify by done.
    split; [reflexivity | apply conforms_ResumeData].
  - done.
Qed.

(** A provider that answers with the text of a profile: the scan
    returns that profile. *)
Lemma scanResume_outcomes_witness :
  scanResume (answering (JSON_stringify (ResumeData_json (inputs sample_item))))
    (str "JVBERi0=") (str "application/pdf") sample_world
  = (sample_world, inr (ResumeData_json (inputs sample_item))).
Proof.
  destruct (scanResume_outcomes
              (answering (JSON_stringify (ResumeData_json (inputs sample_item))))
              (str "JVBERi0=") (str "application/pdf") sample_world)
    as (_ & _ & Htyped & _).
  apply (Htyped {| text := Some (JSON_stringify
                                   (ResumeData_json (inputs sample_item))) |}
                (inputs sample_item)); reflexivity.
Defined.

(** C8, as stated, fails: a response whose text is JSON of another
    shape is returned as it is, a response without text makes
    [scanResume] return the empty object, and a failing provider call
    surfaces the provider's error. *)
Lemma scanResume_not_all_or_nothing :
  (scanResume (answering summary_only_text) (str "JVBERi0=")
     (str "application/pdf") sample_world
   = (sample_world, inr (JObj [(str "summary", JStr (str "ok"))]))
   /\ conforms scanResume_schema (JObj [(str "summary", JStr (str "ok"))])
      = false)
  /\ (scanResume silent_provider (str "JVBERi0=") (str "application/pdf")
        sample_world = (sample_world, inr (JObj []))
      /\ conforms scanResume_schema (JObj []) = false)
  /\ (scanResume failing_provider (str "JVBERi0=") (str "application/pdf")
        sample_world
      = (sample_world, inl (ProviderError (str "fetch failed")))
      /\ ProviderError (str "fetch failed") <> scan_failed).
Proof. repeat split; done. Qed.

(** ** App.tsx: the history store *)

Lemma newItem_typed uuid now s r :
  st_recommendation s = CareerRecommendation_json r ->
  newItem uuid now s = HistoryItem_json (saved_item uuid now s r).
Proof. intros H. unfold newItem. rewrite H. reflexivity. Qed.

Lemma item_id_typed h : item_id (HistoryItem_json h) = inr (Some (JStr (id h))).
Proof. reflexivity. Qed.

Lemma filter_all {A} (P : A -> Prop) `{!forall x, Decision (P x)} (l : list A) :
  Forall P l -> filter P l = l.
Proof.
  induction 1 as [| x l Hx _ IH]; [done |].
  rewrite filter_cons, decide_True by done. by rewrite IH.
Qed.

Lemma other_ids i (l : list HistoryItem) :
  i ∉ map id l -> Forall (fun h => id h <> i) l.
Proof.
  intros Hni. apply Forall_forall. intros h Hh Heq. apply Hni.
  rewrite <- Heq. by apply list_elem_of_fmap_2.
Qed.

(** On a typed list the filter of [deleteHistoryItem] keeps, in order,
    the entries whose id differs from the given one. *)
Lemma filter_history_typed l i :
  filter_history (history_json l) i
  = inr (history_json (filter (fun h => id h <> i) l)).
Proof.
  unfold filter_history, history_json.
  assert (array_filter
            (fun item =>
               match item_id item with
               | inl e => inl e
               | inr x => inr (strict_ne_string x i)
               end) (map HistoryItem_json l)
          = inr (map HistoryItem_json (filter (fun h => id h <> i) l))) as ->;
    [| reflexivity].
  induction l as [| h l IH]; [reflexivity |].
  cbn [map array_filter]. rewrite item_id_typed, IH.
  rewrite filter_cons. unfold strict_ne_string, jsstring_eqb.
  destruct (decide (id h = i)) as [Heq | Hne].
  - rewrite bool_decide_eq_true_2, decide_False by auto. reflexivity.
  - rewrite bool_decide_eq_false_2, decide_True by auto. reflexivity.
Qed.

Lemma with_history_same s : with_history (st_history s) s = s.
Proof. by destruct s. Qed.

(** A write that changes nothing: the key already holds the text and
    the storage is within its quota. *)
Lemma Storage_setItem_same k v s :
  Storage_getItem k s = Some v ->
  (usage (items s) <= quota s)%nat ->
  Storage_setItem k v s = inr s.
Proof.
  unfold Storage_getItem. intros Hget Huse.
  assert (<[k:=v]> (items s) = items s) as Hsame by by apply insert_id.
  rewrite Storage_setItem_fits by (unfold fits; by rewrite Hsame).
  rewrite Hsame. by destruct s.
Qed.

(** *** Writes that always fit *)

Lemma usage_lookup (k v : jsstring) (m : gmap jsstring jsstring) :
  m !! k = Some v ->
  usage m = (length k + length v + usage (delete k m))%nat.
Proof.
  intros Hk. unfold usage.
  apply (map_fold_delete_L (fun k v n => length k + length v + n)%nat); [| done].
  intros. lia.
Qed.

Lemma usage_insert (k v : jsstring) (m : gmap jsstring jsstring) :
  usage (<[k:=v]> m) = (length k + length v + usage (delete k m))%nat.
Proof.
  rewrite (usage_lookup k v (<[k:=v]> m)) by apply lookup_insert_eq.
  by rewrite delete_insert_eq.
Qed.

(** Replacing a stored text by one that is not longer fits in a storage
    that is within its quota. *)
Lemma fits_shorter k v v' s :
  Storage_getItem k s = Some v ->
  (usage (items s) <= quota s)%nat ->
  (length v' <= length v)%nat ->
  fits k v' s.
Proof.
  unfold Storage_getItem, fits. intros Hget Huse Hlen.
  rewrite usage_insert. rewrite (usage_lookup k v) in Huse by done. lia.
Qed.

Lemma join_commas_total (parts : list jsstring) :
  length (join_commas parts)
  = pred (list_sum (map (fun p => S (length p)) parts)).
Proof.
  induction parts as [| p [| q r] IH]; [done | simpl; lia |].
  change (join_commas (p :: q :: r)) with (p ++ 44 :: join_commas (q :: r)).
  rewrite length_app. cbn [length]. rewrite IH. simpl. lia.
Qed.

Lemma list_sum_filter_le {A} (f : A -> nat) (P : A -> Prop)
    `{!forall x, Decision (P x)} (l : list A) :
  (list_sum (map f (filter P l)) <= list_sum (map f l))%nat.
Proof.
  induction l as [| x l IH]; [done |].
  rewrite filter_cons. destruct (decide (P x)); simpl; lia.
Qed.

Lemma stringify_filter_length (P : HistoryItem -> Prop)
    `{!forall x, Decision (P x)} (l : list HistoryItem) :
  (length (JSON_stringify (history_json (filter P l)))
   <= length (JSON_stringify (history_json l)))%nat.
Proof.
  unfold history_json. cbn [JSON_stringify length].
  rewrite !length_app, !join_commas_total, !map_map. cbn [length].
  pose proof (list_sum_filter_le
                (fun x => S (length (JSON_stringify (HistoryItem_json x)))) P l).
  lia.
Qed.

(** C9.  When there is no current recommendation, or the title is empty
    or consists of white space only, [handleSave] changes nothing: the
    history, every other state variable, the storage and the console
    stay as they are, no entry is made and nothing is thrown. *)
Theorem handleSave_guard w uuid now :
  st_recommendation (app w) = JNull \/ blank (st_saveTitle (app w)) ->
  handleSave uuid now w = (w, inr tt).
Proof.
  intros Hguard. rewrite handleSave_spec.
  destruct Hguard as [-> | Hblank]; [reflexivity |].
  rewrite trim_blank by done. simpl. by rewrite orb_true_r.
Qed.

(** A title of a space, a tab and a no-break space: the save does
    nothing even though a recommendation is shown. *)
Lemma handleSave_guard_witness :
  let w := {| app := {| st_education := st_education sample_state;
                        st_skills := st_skills sample_state;
                        st_interests := st_interests sample_state;
                        st_recommendation := st_recommendation sample_state;
                        st_history := st_history sample_state;
                        st_isSaveModalOpen := true;
                        st_saveTitle := [32; 9; 160] |};
              localStorage := roomy_storage; console := [] |} in
  handleSave (str "6fd1c6a2-0003") (str "Nov 3, 2026, 11:02 AM") w = (w, inr tt).
Proof.
  apply handleSave_guard. right. repeat constructor.
Defined.

(** *** Saving over a typed history *)

Section typed_save.
Variables (w : World) (l : list HistoryItem) (r : CareerRecommendation).
Variables (uuid now : jsstring).
Hypothesis Hhistory : st_history (app w) = history_json l.
Hypothesis Hrecommendation : st_recommendation (app w) = CareerRecommendation_json r.
Hypothesis Htitle : has_content (st_saveTitle (app w)).

(** The guard of [handleSave] lets the save through and the new list
    is the new entry in front of the old ones; what remains is the
    write. *)
Lemma handleSave_typed_spec :
  handleSave uuid now w =
  match Storage_setItem storage_key
          (JSON_stringify (history_json (saved_item uuid now (app w) r :: l)))
          (localStorage w) with
  | inr s' =>
      ({| app := saved_state
                   (history_json (saved_item uuid now (app w) r :: l)) (app w);
          localStorage := s'; console := console w |}, inr tt)
  | inl e => (w, inl e)
  end.
Proof.
  rewrite handleSave_spec, Hhistory, Hrecommendation.
  replace (truthy (CareerRecommendation_json r)) with true by reflexivity.
  assert (truthy (JStr (trim (st_saveTitle (app w)))) = true) as ->.
  { simpl. apply negb_true_iff, bool_decide_eq_false_2. by apply trim_content. }
  cbn [negb orb].
  change (spread (history_json l)) with (@inr exn _ (map HistoryItem_json l)).
  cbv zeta. rewrite (newItem_typed uuid now (app w) r Hrecommendation).
  reflexivity.
Qed.

(** C4 (amended).  With a recommendation shown and a title that has
    content, [handleSave] completes when the storage has room for the
    new list: the history becomes the new entry followed by the
    previous entries unchanged, one longer than before; the entry
    carries the generated id and timestamp with the title, the profile
    and the recommendation; the ids stay distinct when the generated id
    is fresh; and the storage key holds the text of the whole new list.
    When the storage has no room for it, [handleSave] throws the
    storage's error and the world stays as it was. *)
Theorem handleSave_prepends :
  (fits storage_key
     (JSON_stringify (history_json (saved_item uuid now (app w) r :: l)))
     (localStorage w) ->
   exists w',
     handleSave uuid now w = (w', inr tt)
     /\ st_history (app w') = history_json (saved_item uuid now (app w) r :: l)
     /\ length (saved_item uuid now (app w) r :: l) = S (length l)
     /\ id (saved_item uuid now (app w) r) = uuid
     /\ date (saved_item uuid now (app w) r) = now
     /\ title (saved_item uuid now (app w) r) = st_saveTitle (app w)
     /\ recommendation (saved_item uuid now (app w) r) = r
     /\ inputs (saved_item uuid now (app w) r)
        = {| education := st_education (app w); skills := st_skills (app w);
             interests := st_interests (app w) |}
     /\ (uuid ∉ map id l -> NoDup (map id l) ->
         NoDup (map id (saved_item uuid now (app w) r :: l)))
     /\ Storage_getItem storage_key (localStorage w')
        = Some (JSON_stringify
                  (history_json (saved_item uuid now (app w) r :: l))))
  /\ (~ fits storage_key
        (JSON_stringify (history_json (saved_item uuid now (app w) r :: l)))
        (localStorage w) ->
      handleSave uuid now w = (w, inl QuotaExceededError)).
Proof.
  rewrite handleSave_typed_spec. split; intros Hfits.
  - rewrite Storage_setItem_fits by done.
    eexists. split; [reflexivity |]. repeat split.
    + intros Hfresh Hnodup. simpl. by apply NoDup_cons.
    + apply lookup_insert_eq.
  - by rewrite Storage_setItem_full.
Qed.

(** C6.  A save followed by a reload gives back what was saved: when
    [handleSave] has stored a new entry, the effect that loads the
    history on a fresh page over the same storage sets the history to
    the very list the saving page holds, the new entry first with its
    id, title, date, profile and recommendation, and logs nothing. *)
Theorem save_then_reload w' :
  handleSave uuid now w = (w', inr tt) ->
  exists w'',
    loadHistory (page_load (localStorage w')) = (w'', inr tt)
    /\ st_history (app w'') = history_json (saved_item uuid now (app w) r :: l)
    /\ st_history (app w'') = st_history (app w')
    /\ console w'' = []
    /\ localStorage w'' = localStorage w'.
Proof.
  rewrite handleSave_typed_spec.
  destruct (Storage_setItem _ _ _) as [e | s'] eqn:Hset; [done |].
  intros [= <-]. rewrite loadHistory_spec. cbn [localStorage page_load].
  rewrite (Storage_get_set _ _ _ _ Hset).
  pose proof (plain_history (saved_item uuid now (app w) r :: l)) as Hp.
  destruct (JSON_stringify _) as [| c t] eqn:Htext.
  { by apply JSON_stringify_nonempty in Htext. }
  rewrite <- Htext, JSON_parse_stringify by done.
  eexists. split; [reflexivity |]. repeat split.
Qed.

End typed_save.

(** Saving " VLSI plan " in the sample session. *)
Lemma handleSave_prepends_witness :
  exists w',
    handleSave (str "6fd1c6a2-0003") (str "Nov 3, 2026, 11:02 AM") sample_world
    = (w', inr tt)
    /\ st_history (app w')
       = history_json
           [saved_item (str "6fd1c6a2-0003") (str "Nov 3, 2026, 11:02 AM")
              sample_state sample_recommendation; sample_item].
Proof.
  destruct (handleSave_prepends sample_world [sample_item] sample_recommendation
              (str "6fd1c6a2-0003") (str "Nov 3, 2026, 11:02 AM"))
    as [Hroom _].
  - reflexivity.
  - reflexivity.
  - right. left. reflexivity.
  - destruct Hroom as (w' & Hrun & Hhist & _).
    + unfold fits. vm_compute. lia.
    + exists w'. split; [exact Hrun | exact Hhist].
Defined.

(** C4, as stated, fails: on a first visit with a storage that accepts
    nothing, a save with a recommendation shown and a title typed in
    throws, and the history keeps its length, zero. *)
Lemma handleSave_storage_full :
  st_history (app private_world) = history_json []
  /\ st_recommendation (app private_world)
     = CareerRecommendation_json sample_recommendation
  /\ has_content (st_saveTitle (app private_world))
  /\ handleSave (str "6fd1c6a2-0003") (str "Nov 3, 2026, 11:02 AM") private_world
     = (private_world, inl QuotaExceededError).
Proof.
  split; [reflexivity |]. split; [reflexivity |]. split.
  - right. left. reflexivity.
  - vm_compute. reflexivity.
Qed.

(** Saving in the sample session and loading the page again. *)
Lemma save_then_reload_witness :
  exists w'',
    loadHistory
      (page_load
         (localStorage
            (handleSave (str "6fd1c6a2-0003") (str "Nov 3, 2026, 11:02 AM")
               sample_world).1)) = (w'', inr tt)
    /\ st_history (app w'')
       = history_json
           [saved_item (str "6fd1c6a2-0003") (str "Nov 3, 2026, 11:02 AM")
              sample_state sample_recommendation; sample_item].
Proof.
  destruct (save_then_reload sample_world [sample_item] sample_recommendation
              (str "6fd1c6a2-0003") (str "Nov 3, 2026, 11:02 AM")
              ltac:(reflexivity) ltac:(reflexivity)
              ltac:(right; left; reflexivity)
              (handleSave (str "6fd1c6a2-0003") (str "Nov 3, 2026, 11:02 AM")
                 sample_world).1)
    as (w'' & Hload & Hhist & _).
  - vm_compute. reflexivity.
  - exists w''. split; [exact Hload | exact Hhist].
Defined.

(** *** Deleting and clearing *)

(** On a store that satisfies its invariant a delete always completes
    and leaves a store that satisfies it. *)
Lemma deleteHistoryItem_synced w l i :
  synced w l ->
  exists w',
    deleteHistoryItem i w = (w', inr tt)
    /\ synced w' (filter (fun h => id h <> i) l).
Proof.
  intros (Hh & Hstored & Huse).
  pose proof (fits_shorter _ _
                (JSON_stringify (history_json (filter (fun h => id h <> i) l)))
                _ Hstored Huse (stringify_filter_length _ l)) as Hfits.
  rewrite deleteHistoryItem_spec, Hh, filter_history_typed.
  rewrite Storage_setItem_fits by done.
  eexists. split; [reflexivity |]. split; [reflexivity |]. split.
  - apply lookup_insert_eq.
  - exact Hfits.
Qed.




(** C10.  When no entry has the given id, [deleteHistoryItem] leaves
    the history with the same entries in the same order, whether or not
    the storage takes the rewritten list; it completes when the storage
    has room for that list, and on a store that satisfies its invariant
    the whole world is left as it was.  In general the filter keeps, in
    order, every entry whose id differs from the given one. *)
Theorem deleteHistoryItem_absent w l i :
  st_history (app w) = history_json l ->
  i ∉ map id l ->
  st_history (app (deleteHistoryItem i w).1) = history_json l
  /\ (fits storage_key (JSON_stringify (history_json l)) (localStorage w) ->
      (deleteHistoryItem i w).2 = inr tt)
  /\ (synced w l -> deleteHistoryItem i w = (w, inr tt))
  /\ (forall j,
        filter_history (history_json l) j
        = inr (history_json (filter (fun h => id h <> j) l))).
Proof.
  intros Hh Habsent.
  assert (deleteHistoryItem i w =
          match Storage_setItem storage_key (JSON_stringify (history_json l))
                  (localStorage w) with
          | inr s' =>
              ({| app := with_history (history_json l) (app w);
                  localStorage := s'; console := console w |}, inr tt)
          | inl e => (w, inl e)
          end) as Hrun.
  { rewrite deleteHistoryItem_spec, Hh, filter_history_typed.
    by rewrite filter_all by by apply other_ids. }
  rewrite Hrun. split; [| split; [| split]].
  - destruct (Storage_setItem _ _ _); [exact Hh | reflexivity].
  - intros Hfits. by rewrite Storage_setItem_fits.
  - intros (_ & Hstored & Huse). rewrite Storage_setItem_same by done.
    rewrite <- Hh, with_history_same. by destruct w.
  - intros j. apply filter_history_typed.
Qed.

(** Deleting an id that is not in the sample history. *)
Lemma deleteHistoryItem_absent_witness :
  st_history (app (deleteHistoryItem (str "no-such-id") sample_world).1)
  = history_json [sample_item].
Proof.
  apply (deleteHistoryItem_absent sample_world [sample_item] (str "no-such-id")).
  - reflexivity.
  - vm_compute. intros Hin. apply list_elem_of_singleton in Hin. discriminate.
Defined.

(** A confirmed "Clear All" completes whenever the storage has room for
    the text of the empty list, and then a second one changes
    nothing. *)
Lemma clearAll_fits w :
  fits storage_key (JSON_stringify (JArr [])) (localStorage w) ->
  exists w1,
    clearAll true w = (w1, inr tt)
    /\ st_history (app w1) = JArr []
    /\ clearAll true w1 = (w1, inr tt)
    /\ Storage_getItem storage_key (localStorage w1) = Some (str "[]")
    /\ (usage (items (localStorage w1)) <= quota (localStorage w1))%nat.
Proof.
  intros Hfits. unfold clearAll.
  rewrite saveToLocalStorage_spec.
  destruct (Storage_setItem _ _ _) as [e | s1] eqn:Hset.
  { by rewrite Storage_setItem_fits in Hset. }
  eexists. split; [reflexivity |]. split; [reflexivity |].
  cbn [localStorage app console].
  pose proof (fits_again _ _ _ _ Hset) as Hfits1. split; [| split].
  - rewrite saveToLocalStorage_spec. cbn [localStorage app console].
    rewrite Storage_setItem_fits by done.
    rewrite Storage_setItem_fits in Hset by done. injection Hset as <-.
    cbn [items quota]. by rewrite insert_insert_eq.
  - apply (Storage_get_set _ _ _ _ Hset).
  - rewrite Storage_setItem_fits in Hset by done. by injection Hset as <-.
Qed.




(** *** Failures of the storage *)

(** C3 (amended).  At startup a read that fails is not absorbed: when
    the browser denies the page its storage, the SecurityError of the
    read leaves the load effect, nothing is logged and the history is
    the empty list it started as.  A stored value that cannot be parsed
    is absorbed: the effect returns, the history stays the empty list
    and the failure is logged; an absent or empty value leaves the
    empty list with nothing logged, and a value that parses becomes the
    history as it is.  A failing write is not absorbed: when the
    storage rejects the new list, [saveToLocalStorage], and with it
    save, delete and clear, throws the storage's error to the caller;
    whenever one of the three throws, the history, the rest of the
    state and the stored value are what they were. *)
Theorem storage_failures storage w h l r uuid now i confirmed :
  (loadHistory_effect false (page_load storage)
   = (page_load storage, inl SecurityError)
   /\ st_history (app (page_load storage)) = JArr []
   /\ console (page_load storage) = [])
  /\ (exists w',
      loadHistory_effect true (page_load storage) = (w', inr tt)
      /\ localStorage w' = storage
      /\ match Storage_getItem storage_key storage with
         | Some (c :: t) =>
             match JSON_parse (c :: t) with
             | Some v => st_history (app w') = v /\ console w' = []
             | None =>
                 st_history (app w') = JArr []
                 /\ console w' = [(str "Failed to parse history", SyntaxError)]
             end
         | _ => st_history (app w') = JArr [] /\ console w' = []
         end)
  /\ (~ fits storage_key (JSON_stringify h) (localStorage w) ->
      saveToLocalStorage h w = (w, inl QuotaExceededError))
  /\ (st_history (app w) = history_json l ->
      st_recommendation (app w) = CareerRecommendation_json r ->
      has_content (st_saveTitle (app w)) ->
      ~ fits storage_key
          (JSON_stringify (history_json (saved_item uuid now (app w) r :: l)))
          (localStorage w) ->
      handleSave uuid now w = (w, inl QuotaExceededError))
  /\ (st_history (app w) = history_json l ->
      ~ fits storage_key
          (JSON_stringify (history_json (filter (fun x => id x <> i) l)))
          (localStorage w) ->
      deleteHistoryItem i w = (w, inl QuotaExceededError))
  /\ (~ fits storage_key (JSON_stringify (JArr [])) (localStorage w) ->
      clearAll true w = (w, inl QuotaExceededError))
  /\ (forall w' e, handleSave uuid now w = (w', inl e) -> w' = w)
  /\ (forall w' e, deleteHistoryItem i w = (w', inl e) -> w' = w)
  /\ (forall w' e, clearAll confirmed w = (w', inl e) -> w' = w).
Proof.
  split; [| split; [| split; [| split; [| split; [| split; [| split;
    [| split]]]]]]].
  - by rewrite loadHistory_effect_denied.
  - change (loadHistory_effect true) with loadHistory.
    rewrite loadHistory_spec. cbn [page_load localStorage].
    destruct (Storage_getItem _ _) as [[| c t] |].
    + by eexists.
    + destruct (JSON_parse _); by eexists.
    + by eexists.
  - intros Hfull. by rewrite saveToLocalStorage_spec, Storage_setItem_full.
  - intros Hh Hr Htitle Hfull.
    by rewrite (handleSave_typed_spec w l r uuid now Hh Hr Htitle),
      Storage_setItem_full.
  - intros Hh Hfull.
    by rewrite deleteHistoryItem_spec, Hh, filter_history_typed,
      Storage_setItem_full.
  - intros Hfull. unfold clearAll.
    by rewrite saveToLocalStorage_spec, Storage_setItem_full.
  - intros w' e. rewrite handleSave_spec.
    destruct (_ || _); [done |].
    destruct (spread _) as [e0 | rest]; [by intros [= <- _] |].
    cbv zeta. destruct (Storage_setItem _ _ _); [by intros [= <- _] | done].
  - intros w' e. rewrite deleteHistoryItem_spec.
    destruct (filter_history _ _) as [e0 | v]; [by intros [= <- _] |].
    destruct (Storage_setItem _ _ _); [by intros [= <- _] | done].
  - intros w' e. unfold clearAll. destruct confirmed; [| done].
    rewrite saveToLocalStorage_spec.
    destruct (Storage_setItem _ _ _); [by intros [= <- _] | done].
Qed.

(** A stored text that is not JSON: the page loads with an empty
    history and one line in the console. *)
Lemma storage_failures_witness :
  exists w',
    loadHistory_effect true
      (page_load {| items := {[storage_key := str "[{oops"]};
                    quota := 5000 |}) = (w', inr tt)
    /\ st_history (app w') = JArr []
    /\ console w' = [(str "Failed to parse history", SyntaxError)].
Proof.
  destruct (storage_failures
              {| items := {[storage_key := str "[{oops"]}; quota := 5000 |}
              sample_world (JArr []) [] sample_recommendation
              (str "6fd1c6a2-0003") (str "Nov 3, 2026, 11:02 AM")
              (str "6fd1c6a2-0001") true)
    as (_ & (w' & Hrun & _ & Hread) & _).
  exists w'. split; [exact Hrun |]. exact Hread.
Defined.

(** C3, as stated, fails, for the read and for the write.  The storage
    holds a saved roadmap and the browser denies the page its storage:
    the load effect throws the SecurityError of the read, with the
    history empty and nothing logged.  The sample session holds one
    roadmap, the storage holds its text and has no room left: saving a
    second roadmap throws the storage's error to the caller. *)
Lemma storage_failures_propagate :
  (Storage_getItem storage_key (localStorage synced_world)
   = Some (JSON_stringify (history_json [sample_item]))
   /\ loadHistory_effect false (page_load (localStorage synced_world))
      = ({| app := initial_state; localStorage := localStorage synced_world;
            console := [] |}, inl SecurityError)
   /\ st_history initial_state = JArr [])
  /\ synced tight_world [sample_item]
  /\ handleSave (str "6fd1c6a2-0003") (str "Nov 3, 2026, 11:02 AM") tight_world
     = (tight_world, inl QuotaExceededError).
Proof.
  split; [| split].
  - split; [reflexivity |]. split; reflexivity.
  - split; [reflexivity |]. split; [reflexivity |]. vm_compute. lia.
  - vm_compute. reflexivity.
Qed.

(** ** Further properties of the history handlers *)

(** X1.  The effect that loads the history throws exactly when the
    browser denies the read: it then throws the SecurityError of the
    read and leaves the world as it was.  When the read is granted it
    returns, whatever the storage holds.  Either way it never writes to
    the storage. *)
Theorem loadHistory_returns granted w :
  exists w' r,
    loadHistory_effect granted w = (w', r)
    /\ localStorage w' = localStorage w
    /\ (if granted then r = inr tt else r = inl SecurityError /\ w' = w).
Proof.
  destruct granted.
  - change (loadHistory_effect true) with loadHistory.
    rewrite loadHistory_spec.
    destruct (Storage_getItem _ _) as [[| c t] |];
      [by do 2 eexists | | by do 2 eexists].
    destruct (JSON_parse _); by do 2 eexists.
  - rewrite loadHistory_effect_denied. by do 2 eexists.
Qed.

(** X2.  The loaded value is not checked to be a list.  When the
    history is an object, a number, a boolean or [null], as after
    loading such a stored value, deleting throws a TypeError, and so
    does a save that passes its guard; the world is left as it was. *)
Theorem history_of_wrong_shape w uuid now i :
  spread (st_history (app w)) = inl TypeError ->
  deleteHistoryItem i w = (w, inl TypeError)
  /\ (truthy (st_recommendation (app w)) = true ->
      has_content (st_saveTitle (app w)) ->
      handleSave uuid now w = (w, inl TypeError)).
Proof.
  intros Hspread. split.
  - rewrite deleteHistoryItem_spec.
    by destruct (st_history (app w)).
  - intros Hrec Htitle. rewrite handleSave_spec, Hrec, Hspread.
    assert (truthy (JStr (trim (st_saveTitle (app w)))) = true) as ->.
    { simpl. apply negb_true_iff, bool_decide_eq_false_2. by apply trim_content. }
    reflexivity.
Qed.

(** The stored text is an object: the page loads it as the history,
    and the next delete throws. *)
Lemma history_of_wrong_shape_witness :
  let stored := {| items := {[storage_key := summary_only_text]};
                   quota := 5000 |} in
  let w := (loadHistory (page_load stored)).1 in
  st_history (app w) = JObj [(str "summary", JStr (str "ok"))]
  /\ deleteHistoryItem (str "6fd1c6a2-0001") w = (w, inl TypeError).
Proof.
  split; [reflexivity |].
  apply (history_of_wrong_shape _ [] [] (str "6fd1c6a2-0001")).
  reflexivity.
Defined.

(** X3.  A completed [handleSave] closes the save dialog and empties
    the title; the profile fields and the shown recommendation stay,
    and the console is not written to. *)
Theorem handleSave_closes_dialog w uuid now w' :
  handleSave uuid now w = (w', inr tt) ->
  w' = w
  \/ (st_isSaveModalOpen (app w') = false
      /\ st_saveTitle (app w') = []
      /\ st_education (app w') = st_education (app w)
      /\ st_skills (app w') = st_skills (app w)
      /\ st_interests (app w') = st_interests (app w)
      /\ st_recommendation (app w') = st_recommendation (app w)
      /\ console w' = console w).
Proof.
  rewrite handleSave_spec.
  destruct (_ || _); [intros [= <-]; by left |].
  destruct (spread _) as [e | rest]; [done |].
  cbv zeta. destruct (Storage_setItem _ _ _); [done |].
  intros [= <-]. right. repeat split.
Qed.

(** After the save in the sample session the dialog is closed. *)
Lemma handleSave_closes_dialog_witness :
  st_isSaveModalOpen
    (app (handleSave (str "6fd1c6a2-0003") (str "Nov 3, 2026, 11:02 AM")
            sample_world).1) = false.
Proof.
  destruct (handleSave_closes_dialog sample_world (str "6fd1c6a2-0003")
              (str "Nov 3, 2026, 11:02 AM")
              (handleSave (str "6fd1c6a2-0003") (str "Nov 3, 2026, 11:02 AM")
                 sample_world).1)
    as [Hsame | (Hclosed & _)].
  - vm_compute. reflexivity.
  - exfalso. apply (f_equal (fun x => st_isSaveModalOpen (app x))) in Hsame.
    vm_compute in Hsame. discriminate Hsame.
  - exact Hclosed.
Defined.

(** X4.  Deleting the same id a second time removes nothing more: the
    history after the second delete is the history after the first,
    whatever the storage does. *)
Theorem deleteHistoryItem_twice w l i :
  st_history (app w) = history_json l ->
  st_history (app (deleteHistoryItem i (deleteHistoryItem i w).1).1)
  = st_history (app (deleteHistoryItem i w).1).
Proof.
  intros Hh.
  assert (forall w0 l0, st_history (app w0) = history_json l0 ->
            Forall (fun x => id x <> i) l0 ->
            st_history (app (deleteHistoryItem i w0).1) = history_json l0)
    as Hkept.
  { intros w0 l0 H0 Hall.
    rewrite deleteHistoryItem_spec, H0, filter_history_typed, filter_all by done.
    by destruct (Storage_setItem _ _ _). }
  rewrite (deleteHistoryItem_spec i w), Hh, filter_history_typed.
  destruct (Storage_setItem _ _ _) as [e | s'] eqn:Hset; cbn [fst].
  - rewrite deleteHistoryItem_spec, Hh, filter_history_typed, Hset. exact Hh.
  - apply Hkept; [reflexivity |].
    apply Forall_forall. intros x Hx. by apply list_elem_of_filter in Hx as [Hx _].
Qed.

(** Deleting the saved roadmap of the sample session twice. *)
Lemma deleteHistoryItem_twice_witness :
  st_history
    (app (deleteHistoryItem (id sample_item)
            (deleteHistoryItem (id sample_item) sample_world).1).1)
  = JArr [].
Proof.
  rewrite (deleteHistoryItem_twice sample_world [sample_item] (id sample_item)).
  - vm_compute. reflexivity.
  - reflexivity.
Defined.

Lemma usage_after_set k v s s' :
  Storage_setItem k v s = inr s' ->
  (usage (items s') <= quota s')%nat.
Proof.
  intros Hset. pose proof (fits_again _ _ _ _ Hset) as Hfits.
  pose proof (Storage_get_set _ _ _ _ Hset) as Hget.
  unfold fits, Storage_getItem in *. by rewrite insert_id in Hfits.
Qed.

(** X5.  The store's invariant holds along every run: loading a page
    over a storage that holds the text of a list within its quota
    gives a world that satisfies it, and from a world that satisfies it
    a completed save, a delete and a confirmed clear each lead to a
    world that satisfies it, delete and clear always completing. *)
Theorem store_invariant :
  (forall s l,
      Storage_getItem storage_key s = Some (JSON_stringify (history_json l)) ->
      (usage (items s) <= quota s)%nat ->
      exists w, loadHistory (page_load s) = (w, inr tt) /\ synced w l)
  /\ (forall w l r uuid now w',
        synced w l ->
        st_recommendation (app w) = CareerRecommendation_json r ->
        has_content (st_saveTitle (app w)) ->
        handleSave uuid now w = (w', inr tt) ->
        synced w' (saved_item uuid now (app w) r :: l))
  /\ (forall w l i,
        synced w l ->
        exists w', deleteHistoryItem i w = (w', inr tt)
                   /\ synced w' (filter (fun h => id h <> i) l))
  /\ (forall w l,
        synced w l ->
        exists w', clearAll true w = (w', inr tt) /\ synced w' []).
Proof.
  split; [| split; [| split]].
  - intros s l Hstored Huse. rewrite loadHistory_spec.
    cbn [page_load localStorage]. rewrite Hstored.
    pose proof (plain_history l) as Hp.
    destruct (JSON_stringify _) as [| c t] eqn:Htext.
    { by apply JSON_stringify_nonempty in Htext. }
    rewrite <- Htext, JSON_parse_stringify by done.
    eexists. split; [reflexivity |]. split; [reflexivity |].
    split; [by rewrite Htext | exact Huse].
  - intros w l r uuid now w' (Hh & _ & _) Hr Htitle.
    rewrite (handleSave_typed_spec w l r uuid now Hh Hr Htitle).
    destruct (Storage_setItem _ _ _) as [e | s'] eqn:Hset; [done |].
    intros [= <-]. split; [reflexivity |]. split.
    + apply (Storage_get_set _ _ _ _ Hset).
    + apply (usage_after_set _ _ _ _ Hset).
  - intros w l i. apply deleteHistoryItem_synced.
  - intros w l (Hh & Hstored & Huse).
    destruct (clearAll_fits w) as (w1 & H1 & H2 & _ & H4 & H5).
    { apply (fits_shorter _ _ _ _ Hstored Huse).
      change (JSON_stringify (JArr [])) with [91; 93].
      unfold history_json. cbn [JSON_stringify length].
      rewrite length_app. cbn [length]. lia. }
    exists w1. split; [exact H1 |]. split; [exact H2 |].
    split; [exact H4 | exact H5].
Qed.

(** Loading a page over the storage of the sample session. *)
Lemma store_invariant_witness :
  exists w,
    loadHistory (page_load (localStorage synced_world)) = (w, inr tt)
    /\ synced w [sample_item].
Proof.
  destruct store_invariant as [Hload _].
  apply Hload; [reflexivity | vm_compute; lia].
Defined.

(** ** App.tsx: the navigator *)

(** *** Calls into the service module *)

(** The service functions write nothing but lines to the console, and
    what they return and write does not depend on the world. *)
Lemma getCareerRecommendations_lines ai e s i :
  exists lines r,
    (lines = [] \/ lines = [(str "Failed to parse Gemini response", SyntaxError)]
                   /\ r = inl generation_failed)
    /\ forall w,
         getCareerRecommendations ai e s i w
         = ({| app := app w; localStorage := localStorage w;
               console := console w ++ lines |}, r).
Proof.
  destruct (ai (getCareerRecommendations_request e s i)) as [err | resp] eqn:Hai.
  - exists [], (inl err). split; [by left |]. intros w.
    rewrite getCareerRecommendations_spec, Hai, app_nil_r. by destruct w.
  - destruct (JSON_parse (text_or_empty_object resp)) as [v |] eqn:Hp.
    + exists [], (inr v). split; [by left |]. intros w.
      rewrite getCareerRecommendations_spec, Hai, Hp, app_nil_r. by destruct w.
    + exists [(str "Failed to parse Gemini response", SyntaxError)],
        (inl generation_failed).
      split; [by right |]. intros w.
      by rewrite getCareerRecommendations_spec, Hai, Hp.
Qed.

Lemma scanResume_lines ai b m :
  exists lines r,
    (lines = [] \/ lines = [(str "Failed to parse scan response", SyntaxError)]
                   /\ r = inl scan_failed)
    /\ forall w,
         scanResume ai b m w
         = ({| app := app w; localStorage := localStorage w;
               console := console w ++ lines |}, r).
Proof.
  destruct (ai (scanResume_request b m)) as [err | resp] eqn:Hai.
  - exists [], (inl err). split; [by left |]. intros w.
    rewrite scanResume_spec, Hai, app_nil_r. by destruct w.
  - destruct (JSON_parse (text_or_empty_object resp)) as [v |] eqn:Hp.
    + exists [], (inr v). split; [by left |]. intros w.
      rewrite scanResume_spec, Hai, Hp, app_nil_r. by destruct w.
    + exists [(str "Failed to parse scan response", SyntaxError)],
        (inl scan_failed).
      split; [by right |]. intros w.
      by rewrite scanResume_spec, Hai, Hp.
Qed.

(** An awaited call gives what the call gives in any world. *)
Lemma await_getCareerRecommendations ai e s i w w' r c :
  getCareerRecommendations ai e s i w = (w', r) ->
  exists lines,
    console w' = console w ++ lines
    /\ await_service (getCareerRecommendations ai e s i) c
       = ({| page := page c; log := log c ++ map service_line lines |}, r).
Proof.
  intros H.
  destruct (getCareerRecommendations_lines ai e s i) as (lines & r0 & _ & Hall).
  rewrite Hall in H. injection H as <- <-.
  exists lines. split; [done |].
  unfold await_service. by rewrite Hall.
Qed.

Lemma await_scanResume ai b m w w' r c :
  scanResume ai b m w = (w', r) ->
  exists lines,
    console w' = console w ++ lines
    /\ await_service (scanResume ai b m) c
       = ({| page := page c; log := log c ++ map service_line lines |}, r).
Proof.
  intros H.
  destruct (scanResume_lines ai b m) as (lines & r0 & _ & Hall).
  rewrite Hall in H. injection H as <- <-.
  exists lines. split; [done |].
  unfold await_service. by rewrite Hall.
Qed.

(** A call that returns has written no line. *)
Lemma getCareerRecommendations_quiet ai e s i w w' v :
  getCareerRecommendations ai e s i w = (w', inr v) -> w' = w.
Proof.
  rewrite getCareerRecommendations_spec.
  destruct (ai _); [done |]. destruct (JSON_parse _); [| done]. congruence.
Qed.

Lemma scanResume_quiet ai b m w w' v :
  scanResume ai b m w = (w', inr v) -> w' = w.
Proof.
  rewrite scanResume_spec.
  destruct (ai _); [done |]. destruct (JSON_parse _); [| done]. congruence.
Qed.

Lemma getCareerRecommendations_typed ai e s i r w :
  ai (getCareerRecommendations_request e s i)
  = inr {| text := Some (JSON_stringify (CareerRecommendation_json r)) |} ->
  getCareerRecommendations ai e s i w = (w, inr (CareerRecommendation_json r)).
Proof.
  intros Hai. rewrite getCareerRecommendations_spec, Hai.
  rewrite (text_or_empty_object_text
             {| text := Some (JSON_stringify (CareerRecommendation_json r)) |}
             _ eq_refl
             (JSON_stringify_nonempty _ (plain_CareerRecommendation r))).
  by rewrite (JSON_parse_stringify _ (plain_CareerRecommendation r)).
Qed.

Lemma scanResume_typed ai b m d w :
  ai (scanResume_request b m)
  = inr {| text := Some (JSON_stringify (ResumeData_json d)) |} ->
  scanResume ai b m w = (w, inr (ResumeData_json d)).
Proof.
  intros Hai. rewrite scanResume_spec, Hai.
  rewrite (text_or_empty_object_text
             {| text := Some (JSON_stringify (ResumeData_json d)) |}
             _ eq_refl (JSON_stringify_nonempty _ (plain_ResumeData d))).
  by rewrite (JSON_parse_stringify _ (plain_ResumeData d)).
Qed.

(** *** The form *)

Lemma getCareerRecommendations_of_spec nts ai ed sk it c :
  getCareerRecommendations_of nts ai ed sk it c =
  match profile_strings nts ed sk it with
  | inl x => (c, inl x)
  | inr (e, s, i) => await_service (getCareerRecommendations ai e s i) c
  end.
Proof.
  unfold getCareerRecommendations_of, profile_strings, mbind, Act_bind, settle.
  destruct (ToString_value nts ed); [done |].
  destruct (ToString_value nts sk); [done |].
  by destruct (ToString_value nts it).
Qed.

Lemma handleSubmit_spec nts ai c :
  handleSubmit nts ai c =
  if negb (to_boolean (pg_education (page c)))
     || negb (to_boolean (pg_skills (page c)))
     || negb (to_boolean (pg_interests (page c)))
  then (c, inr tt)
  else
    match getCareerRecommendations_of nts ai (pg_education (page c))
            (pg_skills (page c)) (pg_interests (page c))
            {| page := page c; log := log c |} with
    | (c', inr v) =>
        ({| page := submitted (Some v) None (page c); log := log c' |}, inr tt)
    | (c', inl err) =>
        ({| page := submitted (pg_recommendation (page c)) (Some submit_failed)
                      (page c);
            log := log c' ++ [(None, err)] |}, inr tt)
    end.
Proof.
  unfold handleSubmit. unfold mbind at 1. unfold Act_bind at 1.
  unfold read_page at 1.
  destruct (_ || _); [done |].
  rewrite !getCareerRecommendations_of_spec.
  unfold mbind, Act_bind, setLoading, setError, write_page, try_catch_finally.
  cbn.
  rewrite !getCareerRecommendations_of_spec.
  destruct (profile_strings _ _ _ _) as [x | [[e s] i]]; [done |].
  unfold await_service. cbn.
  destruct (getCareerRecommendations ai e s i service_world) as [w [x | v]];
    done.
Qed.

Lemma getCareerRecommendations_of_log nts ai ed sk it c c' r :
  getCareerRecommendations_of nts ai ed sk it c = (c', r) ->
  page c' = page c
  /\ exists lines, log c' = log c ++ lines
                   /\ (forall v, r = inr v -> lines = []).
Proof.
  rewrite getCareerRecommendations_of_spec.
  destruct (profile_strings _ _ _ _) as [x | [[e s] i]].
  - intros [= <- <-]. split; [done |]. exists []. by rewrite app_nil_r.
  - destruct (getCareerRecommendations_lines ai e s i) as (lines & r0 & Hl & Hall).
    unfold await_service. rewrite Hall. cbn. intros [= <- <-].
    split; [done |]. exists (map service_line lines). split; [done |].
    intros v ->. by destruct Hl as [-> | [_ [=]]].
Qed.

(** X6.  [handleSubmit] never throws, and what it leaves is settled by
    the form and by the service.  When one of the three profile fields
    is falsy it changes nothing.  Otherwise it ends with [loading] off
    and has changed nothing but [loading], [error] and
    [recommendation].  When a field cannot be spelled in the prompt,
    the error is the fixed message, the recommendation is the one shown
    before and the console ends with the exception.  When the service,
    asked for the three fields as the prompt spells them, returns a
    value, the error is cleared, the recommendation is that value and
    the console is as before.  When the service throws, the error is
    the fixed message, the recommendation is the one shown before, and
    the console gets the lines of the service followed by the exception
    it threw. *)
Theorem handleSubmit_returns nts ai c w :
  exists c',
    handleSubmit nts ai c = (c', inr tt)
    /\ if to_boolean (pg_education (page c))
          && to_boolean (pg_skills (page c))
          && to_boolean (pg_interests (page c))
       then
         match profile_strings nts (pg_education (page c))
                 (pg_skills (page c)) (pg_interests (page c)) with
         | inl err =>
             c' = {| page := submitted (pg_recommendation (page c))
                               (Some submit_failed) (page c);
                     log := log c ++ [(None, err)] |}
         | inr (e, s, i) =>
             match getCareerRecommendations ai e s i w with
             | (_, inr v) =>
                 c' = {| page := submitted (Some v) None (page c);
                         log := log c |}
             | (w', inl err) =>
                 exists lines,
                   console w' = console w ++ lines
                   /\ c' = {| page := submitted (pg_recommendation (page c))
                                       (Some submit_failed) (page c);
                              log := log c ++ map service_line lines
                                     ++ [(None, err)] |}
             end
         end
       else c' = c.
Proof.
  rewrite handleSubmit_spec.
  destruct (to_boolean (pg_education (page c))),
    (to_boolean (pg_skills (page c))),
    (to_boolean (pg_interests (page c))); cbn [negb orb andb];
    try (by exists c).
  rewrite getCareerRecommendations_of_spec.
  destruct (profile_strings _ _ _ _) as [x | [[e s] i]];
    [by eexists |].
  destruct (getCareerRecommendations ai e s i w) as [w' [err | v]] eqn:Hcall.
  - destruct (await_getCareerRecommendations ai e s i w w' (inl err)
                {| page := page c; log := log c |} Hcall) as (lines & Hc & ->).
    eexists. split; [reflexivity |]. exists lines. split; [done |].
    cbn. by rewrite app_assoc.
  - destruct (await_getCareerRecommendations ai e s i w w' (inr v)
                {| page := page c; log := log c |} Hcall) as (lines & Hc & ->).
    apply getCareerRecommendations_quiet in Hcall as ->.
    assert (lines = []) as ->.
    { apply (app_inv_head (console w)). by rewrite app_nil_r. }
    eexists. split; [reflexivity |]. cbn. by rewrite app_nil_r.
Qed.

Lemma handleSubmit_asks nts ai c e s i :
  pg_education (page c) = Some (JStr e) -> e <> [] ->
  pg_skills (page c) = Some (JStr s) -> s <> [] ->
  pg_interests (page c) = Some (JStr i) -> i <> [] ->
  handleSubmit nts ai c =
  match await_service (getCareerRecommendations ai e s i)
          {| page := page c; log := log c |} with
  | (c', inr v) =>
      ({| page := submitted (Some v) None (page c); log := log c' |}, inr tt)
  | (c', inl err) =>
      ({| page := submitted (pg_recommendation (page c)) (Some submit_failed)
                    (page c);
          log := log c' ++ [(None, err)] |}, inr tt)
  end.
Proof.
  intros He He' Hs Hs' Hi Hi'.
  rewrite handleSubmit_spec, He, Hs, Hi. cbn [to_boolean truthy].
  rewrite !bool_decide_eq_false_2 by done. cbn [negb orb].
  by rewrite getCareerRecommendations_of_spec.
Qed.

Lemma handleSubmit_answered nts ai c e s i w w' v :
  pg_education (page c) = Some (JStr e) -> e <> [] ->
  pg_skills (page c) = Some (JStr s) -> s <> [] ->
  pg_interests (page c) = Some (JStr i) -> i <> [] ->
  getCareerRecommendations ai e s i w = (w', inr v) ->
  handleSubmit nts ai c
  = ({| page := submitted (Some v) None (page c); log := log c |}, inr tt).
Proof.
  intros He He' Hs Hs' Hi Hi' Hcall.
  rewrite (handleSubmit_asks nts ai c e s i) by done.
  destruct (await_getCareerRecommendations ai e s i w w' (inr v)
              {| page := page c; log := log c |} Hcall) as (lines & Hc & ->).
  apply getCareerRecommendations_quiet in Hcall as ->.
  assert (lines = []) as ->.
  { apply (app_inv_head (console w)). by rewrite app_nil_r. }
  cbn. by rewrite app_nil_r.
Qed.

Lemma handleSubmit_failed nts ai c e s i w w' err :
  pg_education (page c) = Some (JStr e) -> e <> [] ->
  pg_skills (page c) = Some (JStr s) -> s <> [] ->
  pg_interests (page c) = Some (JStr i) -> i <> [] ->
  getCareerRecommendations ai e s i w = (w', inl err) ->
  exists lines,
    console w' = console w ++ lines
    /\ handleSubmit nts ai c
       = ({| page := submitted (pg_recommendation (page c))
                       (Some submit_failed) (page c);
             log := log c ++ map service_line lines ++ [(None, err)] |},
          inr tt).
Proof.
  intros He He' Hs Hs' Hi Hi' Hcall.
  rewrite (handleSubmit_asks nts ai c e s i) by done.
  destruct (await_getCareerRecommendations ai e s i w w' (inl err)
              {| page := page c; log := log c |} Hcall) as (lines & Hc & ->).
  exists lines. split; [done |]. cbn. by rewrite app_assoc.
Qed.

(** X7.  With three non-empty strings in the form, [handleSubmit] asks
    the service for exactly these.  When the service returns a value,
    that value becomes the recommendation and the error is cleared, the
    console staying as it was.  When the service throws, the fixed
    message becomes the error, the recommendation stays, and the console
    gets the lines of the service followed by the exception. *)
Theorem handleSubmit_shows_answer nts ai c e s i w w' r :
  pg_education (page c) = Some (JStr e) -> e <> [] ->
  pg_skills (page c) = Some (JStr s) -> s <> [] ->
  pg_interests (page c) = Some (JStr i) -> i <> [] ->
  getCareerRecommendations ai e s i w = (w', r) ->
  match r with
  | inr v =>
      handleSubmit nts ai c
      = ({| page := submitted (Some v) None (page c); log := log c |}, inr tt)
  | inl err =>
      exists lines,
        console w' = console w ++ lines
        /\ handleSubmit nts ai c
           = ({| page := submitted (pg_recommendation (page c))
                           (Some submit_failed) (page c);
                 log := log c ++ map service_line lines ++ [(None, err)] |},
              inr tt)
  end.
Proof.
  intros He He' Hs Hs' Hi Hi' Hcall. destruct r as [err | v].
  - by apply (handleSubmit_failed nts ai c e s i w w' err).
  - by apply (handleSubmit_answered nts ai c e s i w w' v).
Qed.

(** The sample form submitted to a provider whose call is rejected:
    the fixed message is set and the rejection is logged. *)
Lemma handleSubmit_shows_answer_witness :
  handleSubmit stringify_number failing_provider sample_component
  = ({| page := submitted (Some JNull) (Some submit_failed) sample_page;
        log := [(None, ProviderError (str "fetch failed"))] |}, inr tt).
Proof.
  destruct (handleSubmit_shows_answer stringify_number failing_provider
              sample_component (str "3rd Year B.Tech in ECE")
              (str "Verilog, Arduino, Python") (str "VLSI, Embedded Systems")
              sample_world sample_world
              (inl (ProviderError (str "fetch failed"))))
    as (lines & Hl & H);
    [reflexivity | done | reflexivity | done | reflexivity | done
    | reflexivity |].
  assert (lines = []) as ->.
  { apply (app_inv_head (console sample_world)). by rewrite app_nil_r. }
  exact H.
Defined.

(** *** The result panel *)

Lemma conforms_array_strings v :
  conforms (TypeARRAY TypeSTRING) v = true ->
  exists l, v = JArr l /\ Forall is_string l.
Proof.
  destruct v as [| | | | l |]; try done. cbn [conforms]. intros H.
  exists l. split; [done |]. apply Forall_forall. intros x Hx.
  rewrite forallb_forall in H. apply list_elem_of_In, H in Hx.
  destruct x; try done. by eexists.
Qed.

Lemma conforms_string v : conforms TypeSTRING v = true -> is_string v.
Proof. destruct v; try done. by eexists. Qed.

Lemma conforms_recommendation v :
  conforms getCareerRecommendations_schema v = true ->
  exists m a b c s,
    v = JObj m
    /\ prop_get m (str "careerPaths") = Some (JArr a) /\ Forall is_string a
    /\ prop_get m (str "internshipRoles") = Some (JArr b) /\ Forall is_string b
    /\ prop_get m (str "skillsToLearn") = Some (JArr c) /\ Forall is_string c
    /\ prop_get m (str "summary") = Some (JStr s).
Proof.
  destruct v as [| | | | | m]; try done.
  unfold getCareerRecommendations_schema.
  cbn [conforms forallb fst snd].
  rewrite !andb_true_iff, !bool_decide_eq_true.
  intros [([x1 H1] & [x2 H2] & [x3 H3] & [x4 H4] & _) (G1 & G2 & G3 & G4 & _)].
  rewrite H1 in G1. rewrite H2 in G2. rewrite H3 in G3. rewrite H4 in G4.
  apply conforms_array_strings in G1 as (a & -> & Ha).
  apply conforms_array_strings in G2 as (b & -> & Hb).
  apply conforms_array_strings in G3 as (c & -> & Hc).
  apply conforms_string in G4 as (s & ->).
  by exists m, a, b, c, s.
Qed.

Lemma result_panel_reads_throws v x :
  result_panel_reads v = inl x -> x = TypeError.
Proof.
  unfold result_panel_reads, get_property, array_items.
  destruct v as [[| | | | | m] |]; try congruence.
  repeat (match goal with
          | |- context [match prop_get ?m ?k with _ => _ end] =>
              destruct (prop_get m k) as [[| | | | |] |]
          end; try congruence).
Qed.

Lemma result_panel_reads_list v k :
  k ∈ [str "careerPaths"; str "internshipRoles"; str "skillsToLearn"] ->
  (forall l, get_property v k <> inr (Some (JArr l))) ->
  result_panel_reads v = inl TypeError.
Proof.
  intros Hk Hno.
  destruct (result_panel_reads v) as [x | [[[sm a] b] c]] eqn:H.
  { by rewrite (result_panel_reads_throws _ _ H). }
  exfalso. unfold result_panel_reads in H.
  destruct (get_property v (str "summary")); [done |].
  destruct (get_property v (str "careerPaths")) as [| [[| | | | a' |] |]] eqn:H1;
    try done.
  destruct (get_property v (str "internshipRoles")) as [| [[| | | | b' |] |]] eqn:H2;
    try done.
  destruct (get_property v (str "skillsToLearn")) as [| [[| | | | c' |] |]] eqn:H3;
    try done.
  rewrite !elem_of_cons in Hk. destruct Hk as [-> | [-> | [-> | Hk]]].
  - by apply (Hno a').
  - by apply (Hno b').
  - by apply (Hno c').
  - by apply elem_of_nil in Hk.
Qed.

(** X8.  An answer that keeps to the response schema is truthy, so the
    result panel is drawn for it, and what the panel reads is there: a
    summary that is a string and three lists of strings. *)
Theorem conforming_answer_renders v :
  conforms getCareerRecommendations_schema v = true ->
  to_boolean (Some v) = true
  /\ exists s a b c,
       result_panel_reads (Some v) = inr (Some (JStr s), a, b, c)
       /\ Forall is_string a /\ Forall is_string b /\ Forall is_string c.
Proof.
  intros H.
  apply conforms_recommendation in H
    as (m & a & b & c & s & -> & Ha & Fa & Hb & Fb & Hc & Fc & Hs).
  split; [done |]. exists s, a, b, c.
  unfold result_panel_reads, get_property. by rewrite Hs, Ha, Hb, Hc.
Qed.

(** The sample recommendation is drawn with its summary and lists. *)
Lemma conforming_answer_renders_witness :
  exists s a b c,
    result_panel_reads (Some (CareerRecommendation_json sample_recommendation))
    = inr (Some (JStr s), a, b, c)
    /\ length a = 2%nat /\ length b = 1%nat /\ length c = 2%nat.
Proof.
  destruct (conforming_answer_renders
              (CareerRecommendation_json sample_recommendation))
    as (_ & s & a & b & c & H & _); [reflexivity |].
  exists s, a, b, c. split; [exact H |].
  injection H as _ <- <- <-. done.
Defined.

(** X9.  [handleSubmit] shows whatever the service returns.  When the
    value returned is truthy and holds no array under one of the three
    list keys, as the empty object returned for a response without
    text, the handler ends without an error, the result panel is the
    one drawn, and its reads throw a [TypeError]. *)
Theorem answer_without_list_breaks_render nts ai c e s i w w' v k :
  pg_education (page c) = Some (JStr e) -> e <> [] ->
  pg_skills (page c) = Some (JStr s) -> s <> [] ->
  pg_interests (page c) = Some (JStr i) -> i <> [] ->
  getCareerRecommendations ai e s i w = (w', inr v) ->
  truthy v = true ->
  k ∈ [str "careerPaths"; str "internshipRoles"; str "skillsToLearn"] ->
  (forall l, get_property (Some v) k <> inr (Some (JArr l))) ->
  exists c',
    handleSubmit nts ai c = (c', inr tt)
    /\ pg_recommendation (page c') = Some v
    /\ pg_error (page c') = None
    /\ result_panel (page c') = true
    /\ error_panel (page c') = false
    /\ result_panel_reads (pg_recommendation (page c')) = inl TypeError.
Proof.
  intros He He' Hs Hs' Hi Hi' Hcall Hv Hk Hno.
  pose proof (handleSubmit_answered nts ai c e s i w w' v
                He He' Hs Hs' Hi Hi' Hcall) as H.
  eexists. split; [exact H |]. cbn.
  repeat split; try done. by apply (result_panel_reads_list _ k).
Qed.

(** The sample form submitted to a provider whose response carries no
    text: the empty object becomes the recommendation and the result
    panel cannot be drawn. *)
Lemma answer_without_list_breaks_render_witness :
  exists c',
    handleSubmit stringify_number silent_provider sample_component = (c', inr tt)
    /\ pg_recommendation (page c') = Some (JObj [])
    /\ result_panel (page c') = true
    /\ result_panel_reads (pg_recommendation (page c')) = inl TypeError.
Proof.
  destruct (answer_without_list_breaks_render stringify_number silent_provider
              sample_component (str "3rd Year B.Tech in ECE")
              (str "Verilog, Arduino, Python") (str "VLSI, Embedded Systems")
              sample_world sample_world (JObj []) (str "careerPaths"))
    as (c' & H & Hr & _ & Hp & _ & Hreads); try reflexivity; try done.
  - by left.
  - by exists c'.
Defined.

(** X10.  The panels after a [handleSubmit] over three non-empty
    strings.  When the service returns a value, no error panel is
    drawn and the result panel is drawn exactly when the value is
    truthy: for [null], [false], a zero or an empty string the page
    shows the empty panel, as before any request.  When the service
    throws, the error panel is drawn, and so is the result panel when
    it was drawn before: the earlier result stays beside the error. *)
Theorem handleSubmit_panels nts ai c e s i w w' r :
  pg_education (page c) = Some (JStr e) -> e <> [] ->
  pg_skills (page c) = Some (JStr s) -> s <> [] ->
  pg_interests (page c) = Some (JStr i) -> i <> [] ->
  getCareerRecommendations ai e s i w = (w', r) ->
  exists c',
    handleSubmit nts ai c = (c', inr tt)
    /\ loading_panel (page c') = pg_isScanning (page c)
    /\ match r with
       | inr v =>
           error_panel (page c') = false
           /\ result_panel (page c') = truthy v
           /\ empty_panel (page c') = negb (truthy v) && negb (pg_isScanning (page c))
       | inl _ =>
           error_panel (page c') = true
           /\ result_panel (page c') = result_panel (page c)
           /\ empty_panel (page c') = false
       end.
Proof.
  intros He He' Hs Hs' Hi Hi' Hcall.
  destruct r as [err | v].
  - destruct (handleSubmit_failed nts ai c e s i w w' err
                He He' Hs Hs' Hi Hi' Hcall) as (lines & _ & H).
    eexists. split; [exact H |].
    unfold loading_panel, error_panel, result_panel, empty_panel. cbn.
    repeat split. apply andb_false_r.
  - pose proof (handleSubmit_answered nts ai c e s i w w' v
                  He He' Hs Hs' Hi Hi' Hcall) as H.
    eexists. split; [exact H |].
    unfold loading_panel, error_panel, result_panel, empty_panel. cbn.
    repeat split. by rewrite !andb_true_r.
Qed.

(** A failing request over a page that shows a recommendation: the
    error panel and the result panel are both drawn. *)
Lemma handleSubmit_panels_witness :
  let c := {| page := showing (Some (CareerRecommendation_json
                                       sample_recommendation)) sample_page;
              log := [] |} in
  exists c',
    handleSubmit stringify_number failing_provider c = (c', inr tt)
    /\ error_panel (page c') = true
    /\ result_panel (page c') = true.
Proof.
  intros c.
  destruct (handleSubmit_panels stringify_number failing_provider c
              (str "3rd Year B.Tech in ECE") (str "Verilog, Arduino, Python")
              (str "VLSI, Embedded Systems") sample_world sample_world
              (inl (ProviderError (str "fetch failed"))))
    as (c' & H & _ & He & Hr & _); try reflexivity; try done.
  by exists c'.
Defined.

Lemma result_panel_reads_typed r :
  result_panel_reads (Some (CareerRecommendation_json r))
  = inr (Some (JStr (summary r)), map JStr (careerPaths r),
         map JStr (internshipRoles r), map JStr (skillsToLearn r)).
Proof. reflexivity. Qed.

(** X11.  A recommendation of the declared type, from the provider to
    the panel.  When the form holds three non-empty strings and the
    provider answers the request for them with the text of a
    recommendation, [handleSubmit] ends with that recommendation on the
    page and no error, and the result panel reads its summary and its
    three lists. *)
Theorem typed_answer_shown nts ai c e s i r :
  pg_education (page c) = Some (JStr e) -> e <> [] ->
  pg_skills (page c) = Some (JStr s) -> s <> [] ->
  pg_interests (page c) = Some (JStr i) -> i <> [] ->
  ai (getCareerRecommendations_request e s i)
  = inr {| text := Some (JSON_stringify (CareerRecommendation_json r)) |} ->
  handleSubmit nts ai c
  = ({| page := submitted (Some (CareerRecommendation_json r)) None (page c);
        log := log c |}, inr tt)
  /\ result_panel (submitted (Some (CareerRecommendation_json r)) None (page c))
     = true
  /\ result_panel_reads (Some (CareerRecommendation_json r))
     = inr (Some (JStr (summary r)), map JStr (careerPaths r),
            map JStr (internshipRoles r), map JStr (skillsToLearn r)).
Proof.
  intros He He' Hs Hs' Hi Hi' Hai.
  split; [| split; [reflexivity | apply result_panel_reads_typed]].
  exact (handleSubmit_answered nts ai c e s i service_world service_world _
           He He' Hs Hs' Hi Hi'
           (getCareerRecommendations_typed ai e s i r service_world Hai)).
Qed.

(** The sample provider answers the sample form with the sample
    recommendation. *)
Lemma typed_answer_shown_witness :
  handleSubmit stringify_number sample_provider sample_component
  = ({| page := submitted (Some (CareerRecommendation_json sample_recommendation))
                  None sample_page;
        log := [] |}, inr tt)
  /\ result_panel_reads (Some (CareerRecommendation_json sample_recommendation))
     = inr (Some (JStr (summary sample_recommendation)),
            map JStr (careerPaths sample_recommendation),
            map JStr (internshipRoles sample_recommendation),
            map JStr (skillsToLearn sample_recommendation)).
Proof.
  destruct (typed_answer_shown stringify_number sample_provider sample_component
              (str "3rd Year B.Tech in ECE") (str "Verilog, Arduino, Python")
              (str "VLSI, Embedded Systems") sample_recommendation)
    as (H & _ & Hr); try reflexivity; try done.
Defined.

(** *** The upload *)

Lemma includes_elem_of l x : includes l x = true <-> x ∈ l.
Proof.
  unfold includes. rewrite existsb_exists. split.
  - intros (y & Hy & Heq). apply bool_decide_eq_true in Heq as ->.
    by apply list_elem_of_In.
  - intros H. exists x. split; [by apply list_elem_of_In |].
    by apply bool_decide_eq_true.
Qed.

Lemma endsWith_suffix s t : endsWith s t = true <-> exists stem, s = stem ++ t.
Proof.
  unfold endsWith, jsstring_eqb.
  rewrite andb_true_iff, Nat.leb_le, bool_decide_eq_true. split.
  - intros [Hle Hd]. exists (take (length s - length t) s).
    transitivity (take (length s - length t) s ++ drop (length s - length t) s);
      [symmetry; apply take_drop | by f_equal].
  - intros [stem ->]. rewrite length_app. split; [lia |].
    replace (length stem + length t - length t)%nat with (length stem) by lia.
    by rewrite drop_app_length.
Qed.

Lemma acceptable_test f :
  includes validTypes (file_type f) || endsWith (file_name f) (str ".pdf")
  || endsWith (file_name f) (str ".doc") || endsWith (file_name f) (str ".docx")
  = true <-> acceptable f.
Proof.
  unfold acceptable.
  rewrite !orb_true_iff, includes_elem_of, !endsWith_suffix. split.
  - intros [[[H | [st H]] | [st H]] | [st H]]; [by left | right; exists st ..];
      auto.
  - intros [H | [st [H | [H | H]]]]; [auto | | |].
    + left; left; right. by exists st.
    + left; right. by exists st.
    + right. by exists st.
Qed.

Lemma handleFileChange_spec f c :
  handleFileChange (Some f) c =
  if includes validTypes (file_type f) || endsWith (file_name f) (str ".pdf")
     || endsWith (file_name f) (str ".doc")
     || endsWith (file_name f) (str ".docx")
  then ({| page := uploaded (Some f) None (page c); log := log c |}, inr tt)
  else ({| page := uploaded None (Some upload_rejected) (page c); log := log c |},
        inr tt).
Proof. unfold handleFileChange. by destruct (_ || _). Qed.

(** X12.  The file picker and the drop zone take the same files.  A
    file is taken when its type is one of the four listed, plain text
    among them, or when its name ends in [.pdf], [.doc] or [.docx],
    whatever its type and its size: it becomes the uploaded file and
    the error is cleared.  Any other file sets the fixed error and
    discards a file uploaded before.  Without a file nothing changes,
    but for a drop ending the drag. *)
Theorem upload_acceptance f c :
  (acceptable f ->
   handleFileChange (Some f) c
   = ({| page := uploaded (Some f) None (page c); log := log c |}, inr tt))
  /\ (~ acceptable f ->
      handleFileChange (Some f) c
      = ({| page := uploaded None (Some upload_rejected) (page c);
            log := log c |}, inr tt))
  /\ handleFileChange None c = (c, inr tt)
  /\ forall file,
       handleDrop file c
       = handleFileChange file {| page := not_dragging (page c); log := log c |}.
Proof.
  repeat split.
  - intros H. rewrite handleFileChange_spec.
    apply acceptable_test in H. by rewrite H.
  - intros H. rewrite handleFileChange_spec.
    destruct (_ || _) eqn:E; [| done]. by apply acceptable_test in E.
Qed.

(** A Word file without a type is taken by its name. *)
Lemma upload_acceptance_witness :
  handleFileChange (Some untyped_file) sample_component
  = ({| page := uploaded (Some untyped_file) None sample_page; log := [] |},
     inr tt).
Proof.
  apply (upload_acceptance untyped_file sample_component).
  right. exists (str "resume"). right; right. reflexivity.
Defined.

(** *** Reading the file *)

Lemma split_from_whole sep s : forall seg,
  sep ∉ s -> split_from sep seg s = [reverse seg ++ s].
Proof.
  induction s as [| c r IH]; intros seg H; cbn [split_from].
  - by rewrite app_nil_r.
  - apply not_elem_of_cons in H as [Hc Hr].
    destruct (N.eqb_spec c sep) as [-> | _]; [done |].
    rewrite (IH _ Hr), reverse_cons. by rewrite <- app_assoc.
Qed.

Lemma split_from_piece sep a b : forall seg,
  sep ∉ a ->
  split_from sep seg (a ++ sep :: b) = (reverse seg ++ a) :: split_from sep [] b.
Proof.
  induction a as [| c r IH]; intros seg H; simpl.
  - by rewrite N.eqb_refl, app_nil_r.
  - apply not_elem_of_cons in H as [Hc Hr].
    destruct (N.eqb_spec c sep) as [-> | _]; [done |].
    rewrite (IH _ Hr), reverse_cons. by rewrite <- app_assoc.
Qed.

Lemma split_from_nonempty sep s : forall seg,
  (1 <= length (split_from sep seg s))%nat.
Proof.
  induction s as [| c r IH]; intros seg; cbn [split_from]; [cbn; lia |].
  destruct (c =? sep); [cbn; lia | apply IH].
Qed.

Lemma split_from_length sep s : forall seg,
  sep ∈ s -> (2 <= length (split_from sep seg s))%nat.
Proof.
  induction s as [| c r IH]; intros seg H; [by apply elem_of_nil in H |].
  cbn [split_from]. destruct (N.eqb_spec c sep) as [-> | Hne].
  - cbn [length]. pose proof (split_from_nonempty sep r []). lia.
  - apply elem_of_cons in H as [-> | H]; [done |]. by apply IH.
Qed.

(** X13.  [fileToBase64] on a load.  For a data URL, [data:] then a
    media type, [;base64,] and a payload, neither with a comma in it,
    the promise resolves with the payload.  It resolves with
    [undefined] exactly when the result has no comma at all. *)
Theorem fileToBase64_payload reader f result :
  reader f = reader_onload result ->
  (forall mediatype payload,
     result = str "data:" ++ mediatype ++ str ";base64," ++ payload ->
     44 ∉ mediatype -> 44 ∉ payload ->
     fileToBase64 reader f = inr (Some payload))
  /\ (fileToBase64 reader f = inr None <-> 44 ∉ result).
Proof.
  intros Hr. unfold fileToBase64. rewrite Hr. split.
  - intros mt payload -> Hmt Hp. f_equal. unfold String_split.
    replace (str "data:" ++ mt ++ str ";base64," ++ payload)
      with ((str "data:" ++ mt ++ str ";base64") ++ 44 :: payload)
      by (by rewrite <- !app_assoc).
    rewrite split_from_piece, (split_from_whole _ _ _ Hp); [done |].
    rewrite !not_elem_of_app. repeat split; [| done |].
    + vm_compute. by intros H; repeat (apply elem_of_cons in H as [[=] | H]);
        apply elem_of_nil in H.
    + vm_compute. by intros H; repeat (apply elem_of_cons in H as [[=] | H]);
        apply elem_of_nil in H.
  - split.
    + intros [= H] Hin. apply (split_from_length 44 result []) in Hin.
      apply lookup_ge_None in H. unfold String_split in H. lia.
    + intros H. unfold String_split. by rewrite (split_from_whole _ _ _ H).
Qed.

(** The sample file, read as a data URL of its type. *)
Lemma fileToBase64_payload_witness :
  fileToBase64 sample_reader sample_file = inr (Some (str "JVBERi0xLjQ=")).
Proof.
  destruct (fileToBase64_payload sample_reader sample_file _ eq_refl) as [H _].
  apply (H (str "application/pdf")); [reflexivity | |];
    vm_compute; intros H'; repeat (apply elem_of_cons in H' as [[=] | H']);
    by apply elem_of_nil in H'.
Defined.

(** *** The scan *)

Lemma await_service_spec {A} (call : M A) c :
  await_service call c
  = ({| page := page c;
        log := log c ++ map service_line (console (call service_world).1) |},
     (call service_world).2).
Proof. unfold await_service. by destruct (call service_world). Qed.

Lemma scanResume_of_log ai no_data base64 m c c' r :
  scanResume_of ai no_data base64 m c = (c', r) ->
  page c' = page c
  /\ exists lines, log c' = log c ++ lines
                   /\ (forall v, r = inr v -> lines = []).
Proof.
  unfold scanResume_of. intros H.
  assert (exists ai' b, await_service (scanResume ai' b m) c = (c', r))
    as (ai' & b & H') by (destruct base64; eauto).
  clear H. destruct (scanResume_lines ai' b m) as (lines & r0 & Hl & Hall).
  unfold await_service in H'. rewrite Hall in H'. cbn in H'.
  injection H' as <- <-. split; [done |].
  exists (map service_line lines). split; [done |].
  intros v ->. by destruct Hl as [-> | [_ [=]]].
Qed.

Lemma scanResume_of_page ai no_data base64 m c p :
  scanResume_of ai no_data base64 m {| page := p; log := log c |}
  = ({| page := p; log := log (scanResume_of ai no_data base64 m c).1 |},
     (scanResume_of ai no_data base64 m c).2).
Proof. unfold scanResume_of. destruct base64; by rewrite !await_service_spec. Qed.

Lemma getCareerRecommendations_of_page nts ai ed sk it c p :
  getCareerRecommendations_of nts ai ed sk it {| page := p; log := log c |}
  = ({| page := p;
        log := log (getCareerRecommendations_of nts ai ed sk it c).1 |},
     (getCareerRecommendations_of nts ai ed sk it c).2).
Proof.
  rewrite !getCareerRecommendations_of_spec.
  destruct (profile_strings _ _ _ _) as [x | [[e s] i]]; [done |].
  by rewrite !await_service_spec.
Qed.

Ltac page_simpl :=
  cbn [page log pg_activeTab pg_education pg_skills pg_interests pg_loading
       pg_isScanning pg_recommendation pg_error pg_uploadedFile pg_isDragging].

Lemma handleScan_spec nts ai no_data reader c :
  handleScan nts ai no_data reader c =
  match pg_uploadedFile (page c) with
  | None => (c, inr tt)
  | Some f =>
      let p := page c in
      let kept :=
        scanned (pg_education p) (pg_skills p) (pg_interests p) (Some JNull)
          (Some scan_rejected) p in
      match fileToBase64 reader f with
      | inl err => ({| page := kept; log := log c ++ [(None, err)] |}, inr tt)
      | inr base64 =>
          match scanResume_of ai no_data base64 (announced_type f) c with
          | (c1, inl err) =>
              ({| page := kept; log := log c1 ++ [(None, err)] |}, inr tt)
          | (c1, inr x) =>
              match extracted_fields x with
              | inl err =>
                  ({| page := kept; log := log c1 ++ [(None, err)] |}, inr tt)
              | inr (ed, sk, it) =>
                  match getCareerRecommendations_of nts ai ed sk it c1 with
                  | (c2, inr v) =>
                      ({| page := scanned ed sk it (Some v) None p;
                          log := log c2 |}, inr tt)
                  | (c2, inl err) =>
                      ({| page := scanned ed sk it (Some JNull)
                                    (Some scan_rejected) p;
                          log := log c2 ++ [(None, err)] |}, inr tt)
                  end
              end
          end
      end
  end.
Proof.
  unfold handleScan. unfold mbind at 1. unfold Act_bind at 1.
  unfold read_page at 1.
  destruct (pg_uploadedFile (page c)) as [f |]; [| done].
  fold (announced_type f).
  unfold mbind at 1 2 3, Act_bind at 1 2 3, setIsScanning, setError,
    setRecommendation at 1, write_page, try_catch_finally.
  page_simpl.
  unfold mbind at 1, Act_bind at 1, settle at 1.
  destruct (fileToBase64 reader f) as [err | base64]; [done |].
  unfold mbind at 1, Act_bind at 1.
  match goal with
  | |- context [scanResume_of ai no_data base64 (announced_type f)
                  {| page := ?p; log := log c |}] =>
      rewrite (scanResume_of_page ai no_data base64 (announced_type f) c p)
  end.
  destruct (scanResume_of ai no_data base64 (announced_type f) c)
    as [c1 [err | x]]; [done |].
  cbn [fst snd].
  unfold extracted_fields, get_property.
  destruct x as [| b | d | t | l | m];
    unfold mbind, Act_bind, settle, setEducation, setSkills, setInterests,
      setRecommendation, write_page, console_error_value;
    page_simpl; [reflexivity | ..];
    match goal with
    | |- context [getCareerRecommendations_of nts ai ?ed ?sk ?it
                    {| page := ?p; log := log c1 |}] =>
        rewrite (getCareerRecommendations_of_page nts ai ed sk it c1 p);
        destruct (getCareerRecommendations_of nts ai ed sk it c1)
          as [c2 [err | v]]; reflexivity
    end.
Qed.

(** X14.  [handleScan] never throws.  Without an uploaded file it
    changes nothing.  With one it ends with [isScanning] off, the tab,
    [loading], the file and the drag mark as they were, and either no
    error, a recommendation in place and the console as before, or
    the fixed error, the recommendation [null] (what was shown before
    is gone) and the console ending with the exception caught. *)
Theorem handleScan_returns nts ai no_data reader c :
  exists c',
    handleScan nts ai no_data reader c = (c', inr tt)
    /\ match pg_uploadedFile (page c) with
       | None => c' = c
       | Some _ =>
           (exists ed sk it v,
              page c' = scanned ed sk it (Some v) None (page c)
              /\ log c' = log c)
           \/ (exists ed sk it lines err,
                 page c' = scanned ed sk it (Some JNull) (Some scan_rejected)
                             (page c)
                 /\ log c' = log c ++ lines ++ [(None, err)])
       end.
Proof.
  rewrite handleScan_spec.
  destruct (pg_uploadedFile (page c)) as [f |]; [| by exists c].
  cbv zeta.
  destruct (fileToBase64 reader f) as [err | base64].
  { eexists. split; [done |]. right.
    by exists (pg_education (page c)), (pg_skills (page c)),
      (pg_interests (page c)), [], err. }
  destruct (scanResume_of _ _ _ _ _) as [c1 [err | x]] eqn:H1;
    apply scanResume_of_log in H1 as (_ & l1 & Hl1 & Hq1).
  { eexists. split; [done |]. right.
    exists (pg_education (page c)), (pg_skills (page c)),
      (pg_interests (page c)), l1, err. cbn.
    by rewrite Hl1, app_assoc. }
  rewrite (Hq1 x eq_refl), app_nil_r in Hl1.
  destruct (extracted_fields x) as [err | [[ed sk] it]].
  { eexists. split; [done |]. right.
    exists (pg_education (page c)), (pg_skills (page c)),
      (pg_interests (page c)), [], err. cbn. by rewrite Hl1. }
  destruct (getCareerRecommendations_of _ _ _ _ _ _) as [c2 [err | v]] eqn:H2;
    apply getCareerRecommendations_of_log in H2 as (_ & l2 & Hl2 & Hq2).
  - eexists. split; [done |]. right. exists ed, sk, it, l2, err. cbn.
    by rewrite Hl2, Hl1, app_assoc.
  - eexists. split; [done |]. left. exists ed, sk, it, v. cbn.
    by rewrite Hl2, (Hq2 v eq_refl), app_nil_r.
Qed.

(** X15.  A scan that fails before the answer is read leaves the form
    as it was.  When the file cannot be read, [handleScan] asks no
    provider: for every provider it ends with the three profile fields
    as they were, the recommendation [null], the fixed error, and the
    reader's error at the end of the console.  The same page results
    when the scan call throws, the console getting the lines of the
    service and the exception, and when the scan returns [null], the
    exception then being a [TypeError]. *)
Theorem handleScan_keeps_form nts ai no_data reader c f :
  pg_uploadedFile (page c) = Some f ->
  (forall err,
     fileToBase64 reader f = inl err ->
     forall ai' no_data',
       handleScan nts ai' no_data' reader c
       = ({| page := scan_failed_early (page c);
             log := log c ++ [(None, err)] |}, inr tt))
  /\ (forall b w w' err,
        fileToBase64 reader f = inr (Some b) ->
        scanResume ai b (announced_type f) w = (w', inl err) ->
        exists lines,
          console w' = console w ++ lines
          /\ handleScan nts ai no_data reader c
             = ({| page := scan_failed_early (page c);
                   log := log c ++ map service_line lines ++ [(None, err)] |},
                inr tt))
  /\ (forall b w w',
        fileToBase64 reader f = inr (Some b) ->
        scanResume ai b (announced_type f) w = (w', inr JNull) ->
        handleScan nts ai no_data reader c
        = ({| page := scan_failed_early (page c);
              log := log c ++ [(None, TypeError)] |}, inr tt)).
Proof.
  intros Hf. split; [| split].
  - intros err Hb ai' no_data'. by rewrite handleScan_spec, Hf, Hb.
  - intros b w w' err Hb Hscan. rewrite handleScan_spec, Hf. cbv zeta.
    rewrite Hb. unfold scanResume_of.
    destruct (await_scanResume ai b (announced_type f) w w' (inl err) c Hscan)
      as (lines & Hl & ->).
    exists lines. split; [done |]. cbn [log]. by rewrite app_assoc.
  - intros b w w' Hb Hscan. rewrite handleScan_spec, Hf. cbv zeta.
    rewrite Hb. unfold scanResume_of.
    destruct (await_scanResume ai b (announced_type f) w w' (inr JNull) c
                Hscan) as (lines & Hl & ->).
    apply scanResume_quiet in Hscan as ->.
    assert (lines = []) as ->.
    { apply (app_inv_head (console w)). by rewrite app_nil_r. }
    cbn. by rewrite app_nil_r.
Qed.

(** The sample file and a reader that cannot read it: the scan ends
    with the error, whatever the provider. *)
Lemma handleScan_keeps_form_witness :
  handleScan stringify_number sample_provider no_data_rejected broken_reader
    upload_component
  = ({| page := scan_failed_early (page upload_component);
        log := [(None, Error (str "NotReadableError"))] |}, inr tt).
Proof.
  destruct (handleScan_keeps_form stringify_number silent_provider
              no_data_rejected broken_reader upload_component sample_file
              eq_refl) as [H _].
  exact (H (Error (str "NotReadableError")) eq_refl sample_provider
           no_data_rejected).
Defined.

Lemma handleScan_asks nts ai no_data reader c f b w1 w1' x ed sk it e s i :
  pg_uploadedFile (page c) = Some f ->
  fileToBase64 reader f = inr (Some b) ->
  scanResume ai b (announced_type f) w1 = (w1', inr x) ->
  extracted_fields x = inr (ed, sk, it) ->
  profile_strings nts ed sk it = inr (e, s, i) ->
  handleScan nts ai no_data reader c =
  match await_service (getCareerRecommendations ai e s i)
          {| page := page c; log := log c |} with
  | (c', inr v) =>
      ({| page := scanned ed sk it (Some v) None (page c); log := log c' |},
       inr tt)
  | (c', inl err) =>
      ({| page := scanned ed sk it (Some JNull) (Some scan_rejected) (page c);
          log := log c' ++ [(None, err)] |}, inr tt)
  end.
Proof.
  intros Hf Hb Hscan Hx Hp.
  rewrite handleScan_spec, Hf. cbv zeta. rewrite Hb.
  unfold scanResume_of.
  destruct (await_scanResume ai b (announced_type f) w1 w1' (inr x) c Hscan)
    as (l1 & Hl1 & ->).
  apply scanResume_quiet in Hscan as ->.
  assert (l1 = []) as ->.
  { apply (app_inv_head (console w1)). by rewrite app_nil_r. }
  rewrite Hx, getCareerRecommendations_of_spec, Hp.
  cbn [map]. by rewrite app_nil_r.
Qed.

Lemma handleScan_answered nts ai no_data reader c f b w1 w1' x ed sk it e s i
    w2 w2' v :
  pg_uploadedFile (page c) = Some f ->
  fileToBase64 reader f = inr (Some b) ->
  scanResume ai b (announced_type f) w1 = (w1', inr x) ->
  extracted_fields x = inr (ed, sk, it) ->
  profile_strings nts ed sk it = inr (e, s, i) ->
  getCareerRecommendations ai e s i w2 = (w2', inr v) ->
  handleScan nts ai no_data reader c
  = ({| page := scanned ed sk it (Some v) None (page c); log := log c |},
     inr tt).
Proof.
  intros Hf Hb Hscan Hx Hp Hcall.
  rewrite (handleScan_asks nts ai no_data reader c f b w1 w1' x ed sk it e s i)
    by done.
  destruct (await_getCareerRecommendations ai e s i w2 w2' (inr v)
              {| page := page c; log := log c |} Hcall) as (l2 & Hl2 & ->).
  apply getCareerRecommendations_quiet in Hcall as ->.
  assert (l2 = []) as ->.
  { apply (app_inv_head (console w2)). by rewrite app_nil_r. }
  cbn. by rewrite app_nil_r.
Qed.

Lemma handleScan_failed nts ai no_data reader c f b w1 w1' x ed sk it e s i
    w2 w2' err :
  pg_uploadedFile (page c) = Some f ->
  fileToBase64 reader f = inr (Some b) ->
  scanResume ai b (announced_type f) w1 = (w1', inr x) ->
  extracted_fields x = inr (ed, sk, it) ->
  profile_strings nts ed sk it = inr (e, s, i) ->
  getCareerRecommendations ai e s i w2 = (w2', inl err) ->
  exists lines,
    console w2' = console w2 ++ lines
    /\ handleScan nts ai no_data reader c
       = ({| page := scanned ed sk it (Some JNull) (Some scan_rejected) (page c);
             log := log c ++ map service_line lines ++ [(None, err)] |},
          inr tt).
Proof.
  intros Hf Hb Hscan Hx Hp Hcall.
  rewrite (handleScan_asks nts ai no_data reader c f b w1 w1' x ed sk it e s i)
    by done.
  destruct (await_getCareerRecommendations ai e s i w2 w2' (inl err)
              {| page := page c; log := log c |} Hcall) as (l2 & Hl2 & ->).
  exists l2. split; [done |]. cbn. by rewrite app_assoc.
Qed.

(** X16.  A scan that goes through.  When the file is read, the scan
    returns a value other than [null], and the three fields read from
    it can be spelled in the prompt, [handleScan] puts the three
    fields into the form as they are, strings or not, and asks for
    recommendations for their spelling, whether or not a field is
    empty.  A value returned becomes the recommendation; when the
    second call throws, the form keeps the extracted fields, the
    recommendation is [null] and the fixed error is set. *)
Theorem handleScan_fills_and_asks nts ai no_data reader c f b w1 w1' x
    ed sk it e s i w2 w2' r :
  pg_uploadedFile (page c) = Some f ->
  fileToBase64 reader f = inr (Some b) ->
  scanResume ai b (announced_type f) w1 = (w1', inr x) ->
  extracted_fields x = inr (ed, sk, it) ->
  profile_strings nts ed sk it = inr (e, s, i) ->
  getCareerRecommendations ai e s i w2 = (w2', r) ->
  match r with
  | inr v =>
      handleScan nts ai no_data reader c
      = ({| page := scanned ed sk it (Some v) None (page c); log := log c |},
         inr tt)
  | inl err =>
      exists lines,
        console w2' = console w2 ++ lines
        /\ handleScan nts ai no_data reader c
           = ({| page := scanned ed sk it (Some JNull) (Some scan_rejected)
                           (page c);
                 log := log c ++ map service_line lines ++ [(None, err)] |},
              inr tt)
  end.
Proof.
  intros Hf Hb Hscan Hx Hp Hcall. destruct r as [err | v].
  - by apply (handleScan_failed nts ai no_data reader c f b w1 w1' x ed sk it
                e s i w2 w2' err).
  - by apply (handleScan_answered nts ai no_data reader c f b w1 w1' x ed sk it
                e s i w2 w2' v).
Qed.

(** The sample file scanned by a provider that answers the scan and
    rejects the request that follows: the form keeps the extracted
    profile beside the error. *)
Lemma handleScan_fills_and_asks_witness :
  handleScan stringify_number scan_only_provider no_data_rejected sample_reader
    upload_component
  = ({| page := scanned (Some (JStr (str "3rd Year B.Tech in ECE")))
                  (Some (JStr (str "Verilog, Arduino, Python")))
                  (Some (JStr (str "VLSI, Embedded Systems")))
                  (Some JNull) (Some scan_rejected) (page upload_component);
        log := [(None, ProviderError (str "fetch failed"))] |}, inr tt).
Proof.
  destruct (handleScan_fills_and_asks stringify_number scan_only_provider
              no_data_rejected sample_reader upload_component sample_file
              (str "JVBERi0xLjQ=") sample_world sample_world
              (ResumeData_json (inputs sample_item))
              (Some (JStr (str "3rd Year B.Tech in ECE")))
              (Some (JStr (str "Verilog, Arduino, Python")))
              (Some (JStr (str "VLSI, Embedded Systems")))
              (str "3rd Year B.Tech in ECE") (str "Verilog, Arduino, Python")
              (str "VLSI, Embedded Systems") sample_world sample_world
              (inl (ProviderError (str "fetch failed"))))
    as (lines & Hl & H); [reflexivity .. |].
  assert (lines = []) as ->.
  { apply (app_inv_head (console sample_world)). by rewrite app_nil_r. }
  exact H.
Defined.

(** X17.  A resume of the declared type, from the file to the page.
    When the uploaded file is read, the provider answers the scan with
    the text of a profile and the request for that profile with the
    text of a recommendation, [handleScan] ends with the profile in the
    form, the recommendation on the page, no error and nothing
    logged. *)
Theorem typed_scan_shown nts ai no_data reader c f b d r :
  pg_uploadedFile (page c) = Some f ->
  fileToBase64 reader f = inr (Some b) ->
  ai (scanResume_request b (announced_type f))
  = inr {| text := Some (JSON_stringify (ResumeData_json d)) |} ->
  ai (getCareerRecommendations_request (education d) (skills d) (interests d))
  = inr {| text := Some (JSON_stringify (CareerRecommendation_json r)) |} ->
  handleScan nts ai no_data reader c
  = ({| page := scanned (Some (JStr (education d))) (Some (JStr (skills d)))
                  (Some (JStr (interests d)))
                  (Some (CareerRecommendation_json r)) None (page c);
        log := log c |}, inr tt).
Proof.
  intros Hf Hb Hscan Hrec.
  exact (handleScan_answered nts ai no_data reader c f b service_world
           service_world (ResumeData_json d) _ _ _ _ _ _ service_world
           service_world _ Hf Hb
           (scanResume_typed ai b (announced_type f) d service_world Hscan)
           eq_refl eq_refl
           (getCareerRecommendations_typed ai _ _ _ r service_world Hrec)).
Qed.

(** The sample file scanned by the sample provider. *)
Lemma typed_scan_shown_witness :
  handleScan stringify_number sample_provider no_data_rejected sample_reader
    upload_component
  = ({| page := scanned (Some (JStr (str "3rd Year B.Tech in ECE")))
                  (Some (JStr (str "Verilog, Arduino, Python")))
                  (Some (JStr (str "VLSI, Embedded Systems")))
                  (Some (CareerRecommendation_json sample_recommendation))
                  None (page upload_component);
        log := [] |}, inr tt).
Proof.
  apply (typed_scan_shown stringify_number sample_provider no_data_rejected
           sample_reader upload_component sample_file (str "JVBERi0xLjQ=")
           (inputs sample_item) sample_recommendation); reflexivity.
Defined.

Lemma JSON_parse_empty_object : JSON_parse (str "{}") = Some (JObj []).
Proof. reflexivity. Qed.

(** X18.  A scan answered without text.  The service then returns the
    empty object, in which none of the three fields is found:
    [handleScan] sets the three form fields to [undefined] and asks for
    recommendations for the profile whose education, skills and
    interests all read [undefined]; what that call gives decides
    between a recommendation and the fixed error. *)
Theorem handleScan_empty_answer nts ai no_data reader c f b resp w w' r :
  pg_uploadedFile (page c) = Some f ->
  fileToBase64 reader f = inr (Some b) ->
  ai (scanResume_request b (announced_type f)) = inr resp ->
  text resp = None \/ text resp = Some [] ->
  getCareerRecommendations ai (str "undefined") (str "undefined")
    (str "undefined") w = (w', r) ->
  exists c',
    handleScan nts ai no_data reader c = (c', inr tt)
    /\ pg_education (page c') = None
    /\ pg_skills (page c') = None
    /\ pg_interests (page c') = None
    /\ match r with
       | inr v =>
           pg_recommendation (page c') = Some v /\ pg_error (page c') = None
       | inl _ =>
           pg_recommendation (page c') = Some JNull
           /\ pg_error (page c') = Some scan_rejected
       end.
Proof.
  intros Hf Hb Hai Ht Hcall.
  assert (scanResume ai b (announced_type f) w = (w, inr (JObj []))) as Hscan.
  { by rewrite scanResume_spec, Hai, (text_or_empty_object_none _ Ht),
      JSON_parse_empty_object. }
  destruct r as [err | v].
  - destruct (handleScan_failed nts ai no_data reader c f b w w (JObj [])
                None None None _ _ _ w w' err Hf Hb Hscan eq_refl eq_refl Hcall)
      as (lines & _ & H).
    eexists. by split; [exact H |].
  - pose proof (handleScan_answered nts ai no_data reader c f b w w (JObj [])
                  None None None _ _ _ w w' v Hf Hb Hscan eq_refl eq_refl Hcall)
      as H.
    eexists. by split; [exact H |].
Qed.

(** The sample file scanned by a provider whose responses carry no
    text: the form fields become [undefined] and the empty object is
    shown as the recommendation. *)
Lemma handleScan_empty_answer_witness :
  exists c',
    handleScan stringify_number silent_provider no_data_rejected sample_reader
      upload_component = (c', inr tt)
    /\ pg_education (page c') = None
    /\ pg_recommendation (page c') = Some (JObj []).
Proof.
  destruct (handleScan_empty_answer stringify_number silent_provider
              no_data_rejected sample_reader upload_component sample_file
              (str "JVBERi0xLjQ=") {| text := None |} sample_world sample_world
              (inr (JObj [])))
    as (c' & H & He & _ & _ & Hr & _); try reflexivity.
  - by left.
  - by exists c'.
Defined.

(** X19.  The second half of a scan is a submit.  When the scan
    returned a value whose three fields are all truthy, [handleScan]
    ends with the recommendation, the console and the profile fields
    that [handleSubmit] ends with when run on the page with the
    extracted fields filled in and no recommendation shown, and it
    sets an error exactly when [handleSubmit] does. *)
Theorem handleScan_as_submit nts ai no_data reader c f b w w' x ed sk it :
  pg_uploadedFile (page c) = Some f ->
  fileToBase64 reader f = inr (Some b) ->
  scanResume ai b (announced_type f) w = (w', inr x) ->
  extracted_fields x = inr (ed, sk, it) ->
  to_boolean ed = true -> to_boolean sk = true -> to_boolean it = true ->
  exists c2 c3,
    handleScan nts ai no_data reader c = (c3, inr tt)
    /\ handleSubmit nts ai
         {| page := scanned ed sk it (Some JNull) None (page c); log := log c |}
       = (c2, inr tt)
    /\ pg_education (page c3) = pg_education (page c2)
    /\ pg_skills (page c3) = pg_skills (page c2)
    /\ pg_interests (page c3) = pg_interests (page c2)
    /\ pg_recommendation (page c3) = pg_recommendation (page c2)
    /\ (pg_error (page c3) = None <-> pg_error (page c2) = None)
    /\ log c3 = log c2.
Proof.
  intros Hf Hb Hscan Hx Hed Hsk Hit.
  rewrite handleScan_spec, handleSubmit_spec, Hf. cbv zeta. rewrite Hb.
  cbn [page log scanned pg_education pg_skills pg_interests].
  rewrite Hed, Hsk, Hit. cbn [negb orb].
  unfold scanResume_of.
  destruct (await_scanResume ai b (announced_type f) w w' (inr x) c Hscan)
    as (l1 & Hl1 & ->).
  apply scanResume_quiet in Hscan as ->.
  assert (l1 = []) as ->.
  { apply (app_inv_head (console w)). by rewrite app_nil_r. }
  rewrite Hx. cbn [map]. rewrite app_nil_r.
  rewrite (getCareerRecommendations_of_page nts ai ed sk it c (page c)).
  rewrite (getCareerRecommendations_of_page nts ai ed sk it c
             (scanned ed sk it (Some JNull) None (page c))).
  destruct (getCareerRecommendations_of nts ai ed sk it c) as [c' [err | v]];
    do 2 eexists; (split; [reflexivity |]); (split; [reflexivity |]);
    cbn; repeat split; done.
Qed.

(** The sample scan and a submit of the extracted profile end with the
    same recommendation. *)
Lemma handleScan_as_submit_witness :
  exists c2 c3,
    handleScan stringify_number sample_provider no_data_rejected sample_reader
      upload_component = (c3, inr tt)
    /\ handleSubmit stringify_number sample_provider
         {| page := scanned (Some (JStr (str "3rd Year B.Tech in ECE")))
                      (Some (JStr (str "Verilog, Arduino, Python")))
                      (Some (JStr (str "VLSI, Embedded Systems")))
                      (Some JNull) None (page upload_component);
            log := [] |} = (c2, inr tt)
    /\ pg_recommendation (page c3) = pg_recommendation (page c2).
Proof.
  destruct (handleScan_as_submit stringify_number sample_provider
              no_data_rejected sample_reader upload_component sample_file
              (str "JVBERi0xLjQ=") sample_world sample_world
              (ResumeData_json (inputs sample_item))
              (Some (JStr (str "3rd Year B.Tech in ECE")))
              (Some (JStr (str "Verilog, Arduino, Python")))
              (Some (JStr (str "VLSI, Embedded Systems"))))
    as (c2 & c3 & H3 & H2 & _ & _ & _ & Hr & _); try reflexivity.
  by exists c2, c3.
Defined.

(** *** Opening a history card *)

Lemma newItem_eq uuid now s :
  newItem uuid now s
  = JObj [(str "id", JStr uuid); (str "title", JStr (st_saveTitle s));
          (str "date", JStr now);
          (str "recommendation", st_recommendation s);
          (str "inputs",
           JObj [(str "education", JStr (st_education s));
                 (str "skills", JStr (st_skills s));
                 (str "interests", JStr (st_interests s))])].
Proof. reflexivity. Qed.

Lemma viewHistoryItem_entry i t d r e s n c :
  viewHistoryItem
    (JObj [(str "id", i); (str "title", t); (str "date", d);
           (str "recommendation", r);
           (str "inputs",
            JObj [(str "education", e); (str "skills", s);
                  (str "interests", n)])]) c
  = ({| page := viewed (Some r) (Some e) (Some s) (Some n) (page c);
        log := log c |}, inr tt).
Proof. reflexivity. Qed.

(** X20.  Saving and opening.  After a [handleSave] that stored a
    roadmap, the history begins with the new entry, and opening that
    entry's card puts back the recommendation and the three profile
    fields the save took, and shows the navigator tab; the other
    variables of the page and the console stay as they are. *)
Theorem save_then_view uuid now w w' c :
  truthy (st_recommendation (app w)) = true ->
  has_content (st_saveTitle (app w)) ->
  handleSave uuid now w = (w', inr tt) ->
  exists item rest,
    st_history (app w') = JArr (item :: rest)
    /\ viewHistoryItem item c
       = ({| page := viewed (Some (st_recommendation (app w)))
                       (Some (JStr (st_education (app w))))
                       (Some (JStr (st_skills (app w))))
                       (Some (JStr (st_interests (app w)))) (page c);
             log := log c |}, inr tt).
Proof.
  intros Hr Ht. rewrite handleSave_spec, Hr. cbn [truthy negb orb].
  rewrite (bool_decide_eq_false_2 _ (trim_content _ Ht)). cbn [negb].
  destruct (spread _) as [e | rest]; [done |]. cbv zeta.
  destruct (Storage_setItem _ _ _) as [e | s']; [done |].
  intros [= <-]. exists (newItem uuid now (app w)), rest. split; [done |].
  rewrite newItem_eq. apply viewHistoryItem_entry.
Qed.

(** The sample session saved and the new card opened on a fresh page. *)
Lemma save_then_view_witness :
  exists w' item rest,
    handleSave (str "6fd1c6a2-0003") (str "Nov 3, 2026, 11:02 AM") sample_world
    = (w', inr tt)
    /\ st_history (app w') = JArr (item :: rest)
    /\ viewHistoryItem item {| page := initial_page; log := [] |}
       = ({| page := showing (Some (CareerRecommendation_json
                                      sample_recommendation)) sample_page;
             log := [] |}, inr tt).
Proof.
  pose (w' := (handleSave (str "6fd1c6a2-0003") (str "Nov 3, 2026, 11:02 AM")
                 sample_world).1).
  destruct (save_then_view (str "6fd1c6a2-0003") (str "Nov 3, 2026, 11:02 AM")
              sample_world w' {| page := initial_page; log := [] |})
    as (item & rest & Hh & Hv).
  - reflexivity.
  - apply Exists_cons_tl, Exists_cons_hd. reflexivity.
  - vm_compute. reflexivity.
  - exists w', item, rest. split; [vm_compute; reflexivity |].
    split; [exact Hh | exact Hv].
Defined.

(** X21.  Reloading and opening.  Over a storage that holds the text of
    a list of roadmaps, a fresh page loads a history that begins with
    the first roadmap, and opening its card shows that roadmap's
    recommendation and inputs on the navigator tab. *)
Theorem reload_then_view storage h l c :
  Storage_getItem storage_key storage
  = Some (JSON_stringify (history_json (h :: l))) ->
  exists w',
    loadHistory (page_load storage) = (w', inr tt)
    /\ st_history (app w') = JArr (HistoryItem_json h :: map HistoryItem_json l)
    /\ viewHistoryItem (HistoryItem_json h) c
       = ({| page := viewed (Some (CareerRecommendation_json (recommendation h)))
                       (Some (JStr (education (inputs h))))
                       (Some (JStr (skills (inputs h))))
                       (Some (JStr (interests (inputs h)))) (page c);
             log := log c |}, inr tt).
Proof.
  intros Hs. rewrite loadHistory_spec. cbn [page_load localStorage].
  rewrite Hs.
  pose proof (JSON_stringify_nonempty _ (plain_history (h :: l))) as Hne.
  pose proof (JSON_parse_stringify _ (plain_history (h :: l))) as Hp.
  destruct (JSON_stringify (history_json (h :: l))) as [| ch t]; [done |].
  rewrite Hp. eexists. split; [reflexivity |]. split; [reflexivity |].
  rewrite HistoryItem_json_eq, ResumeData_json_eq. apply viewHistoryItem_entry.
Qed.

(** A fresh page over the storage of the sample session, and its one
    card opened. *)
Lemma reload_then_view_witness :
  exists w',
    loadHistory (page_load (localStorage synced_world)) = (w', inr tt)
    /\ st_history (app w') = history_json [sample_item]
    /\ viewHistoryItem (HistoryItem_json sample_item)
         {| page := initial_page; log := [] |}
       = ({| page := showing (Some (CareerRecommendation_json
                                      sample_recommendation)) sample_page;
             log := [] |}, inr tt).
Proof.
  destruct (reload_then_view (localStorage synced_world) sample_item []
              {| page := initial_page; log := [] |})
    as (w' & Hl & Hh & Hv); [reflexivity |].
  exists w'. split; [exact Hl |]. split; [exact Hh | exact Hv].
Defined.

Lemma get_property_throws v k x : get_property v k = inl x -> x = TypeError.
Proof. destruct v as [[| | | | |] |]; cbn; congruence. Qed.

(** X22.  Opening a card of an unchecked history.  For the item [null]
    the handler throws a [TypeError] and changes nothing.  For an item
    whose [inputs] is missing or [null] it throws a [TypeError] after
    it has replaced the recommendation by what the item holds under
    [recommendation], [undefined] included: the form and the tab stay.
    For every other item it returns, with the four variables set to
    what it read and the navigator tab shown.  The console, the error,
    the file and the two progress marks are never touched. *)
Theorem viewHistoryItem_outcomes item c :
  match get_property (Some item) (str "inputs") with
  | inl _ => viewHistoryItem item c = (c, inl TypeError)
  | inr None | inr (Some JNull) =>
      exists r,
        get_property (Some item) (str "recommendation") = inr r
        /\ viewHistoryItem item c
           = ({| page := showing r (page c); log := log c |}, inl TypeError)
  | inr inputs =>
      exists r e s i,
        get_property (Some item) (str "recommendation") = inr r
        /\ get_property inputs (str "education") = inr e
        /\ get_property inputs (str "skills") = inr s
        /\ get_property inputs (str "interests") = inr i
        /\ viewHistoryItem item c
           = ({| page := viewed r e s i (page c); log := log c |}, inr tt)
  end.
Proof.
  destruct item as [| b | d | t | l | m]; cbn [get_property].
  1: reflexivity.
  1-4: eexists; split; reflexivity.
  destruct (prop_get m (str "inputs")) as [[| b | d | t | l | m'] |] eqn:H.
  1, 7: eexists; (split; [reflexivity |]);
    unfold viewHistoryItem, mbind, Act_bind, settle; cbn [get_property];
    rewrite H; reflexivity.
  all: do 4 eexists; do 4 (split; [reflexivity |]);
    unfold viewHistoryItem, mbind, Act_bind, settle; cbn [get_property];
    rewrite H; reflexivity.
Qed.

(** *** Starting over *)

(** X23.  "Start New Analysis" empties the three profile fields, the
    recommendation and the uploaded file and leaves the rest, a shown
    error included.  On the page it leaves, [handleSubmit] and
    [handleScan] do nothing, whatever the provider and the reader. *)
Theorem reset_quiets nts ai no_data reader c :
  reset c = ({| page := cleared (page c); log := log c |}, inr tt)
  /\ handleSubmit nts ai {| page := cleared (page c); log := log c |}
     = ({| page := cleared (page c); log := log c |}, inr tt)
  /\ handleScan nts ai no_data reader {| page := cleared (page c); log := log c |}
     = ({| page := cleared (page c); log := log c |}, inr tt)
  /\ result_panel (cleared (page c)) = false
  /\ error_panel (cleared (page c)) = error_panel (page c).
Proof.
  split; [reflexivity |]. split.
  { by rewrite handleSubmit_spec. }
  split.
  { by rewrite handleScan_spec. }
  split; reflexivity.
Qed.

(** ** The service module and the page load, once more *)

(** X24.  The two service functions read and write neither the state
    variables nor the storage, and what they return and log is the
    same in every world.  They log nothing, or one line, and then they
    throw their fixed error. *)
Theorem service_frame ai :
  (forall e s i, exists lines r,
     (lines = []
      \/ lines = [(str "Failed to parse Gemini response", SyntaxError)]
         /\ r = inl generation_failed)
     /\ forall w,
          getCareerRecommendations ai e s i w
          = ({| app := app w; localStorage := localStorage w;
                console := console w ++ lines |}, r))
  /\ (forall b m, exists lines r,
        (lines = []
         \/ lines = [(str "Failed to parse scan response", SyntaxError)]
            /\ r = inl scan_failed)
        /\ forall w,
             scanResume ai b m w
             = ({| app := app w; localStorage := localStorage w;
                   console := console w ++ lines |}, r)).
Proof.
  split.
  - intros e s i. apply getCareerRecommendations_lines.
  - intros b m. apply scanResume_lines.
Qed.

Lemma line_split (a a' r r' : jsstring) :
  10 ∉ a -> 10 ∉ a' -> a ++ nl ++ r = a' ++ nl ++ r' -> a = a' /\ r = r'.
Proof.
  revert a'. induction a as [| c t IH]; intros [| c' t'] Ha Ha'; cbn.
  - by intros [= ->].
  - intros [= <- _]. exfalso. apply Ha'. by left.
  - intros [= -> _]. exfalso. apply Ha. by left.
  - intros [= -> H]. apply not_elem_of_cons in Ha as [_ Ha].
    apply not_elem_of_cons in Ha' as [_ Ha'].
    destruct (IH t' Ha Ha' H) as [-> ->]. done.
Qed.

Lemma request_profile e s i e' s' i' :
  10 ∉ e -> 10 ∉ s -> 10 ∉ i -> 10 ∉ e' -> 10 ∉ s' -> 10 ∉ i' ->
  getCareerRecommendations_request e s i
  = getCareerRecommendations_request e' s' i' ->
  e = e' /\ s = s' /\ i = i'.
Proof.
  intros He Hs Hi He' Hs' Hi' Hreq.
  assert (getCareerRecommendations_prompt e s i
          = getCareerRecommendations_prompt e' s' i') as H.
  { apply (f_equal req_contents) in Hreq.
    unfold getCareerRecommendations_request in Hreq.
    cbn [req_contents] in Hreq. congruence. }
  clear Hreq. unfold getCareerRecommendations_prompt in H.
  do 8 apply app_inv_head in H.
  apply line_split in H as [-> H]; [| done ..].
  apply app_inv_head in H.
  apply line_split in H as [-> H]; [| done ..].
  apply app_inv_head in H.
  by apply line_split in H as [-> _].
Qed.

(** X25.  The request keeps single-line profiles apart: when no field
    holds a line feed, two profiles that differ in a field are sent as
    two different requests. *)
Theorem prompt_injective e s i e' s' i' :
  10 ∉ e -> 10 ∉ s -> 10 ∉ i -> 10 ∉ e' -> 10 ∉ s' -> 10 ∉ i' ->
  (e, s, i) <> (e', s', i') ->
  getCareerRecommendations_request e s i
  <> getCareerRecommendations_request e' s' i'.
Proof.
  intros He Hs Hi He' Hs' Hi' Hne Hreq. apply Hne.
  by destruct (request_profile e s i e' s' i' He Hs Hi He' Hs' Hi' Hreq)
    as (-> & -> & ->).
Qed.

(** The two sample profiles are sent as two different requests. *)
Lemma prompt_injective_witness :
  (str "M.Tech", str "C", str "RF")
  <> (str "3rd Year B.Tech in ECE", str "Verilog, Arduino, Python",
      str "VLSI, Embedded Systems")
  /\ getCareerRecommendations_request (str "M.Tech") (str "C") (str "RF")
     <> getCareerRecommendations_request (str "3rd Year B.Tech in ECE")
          (str "Verilog, Arduino, Python") (str "VLSI, Embedded Systems").
Proof.
  split; [done |].
  apply prompt_injective; try done;
    vm_compute; intros H; repeat (apply elem_of_cons in H as [[=] | H]);
    by apply elem_of_nil in H.
Defined.

(** X26.  Loading twice is loading once.  Running the load effect a
    second time, as a development build of React does, ends as the
    first run did (both return when the read is granted, both throw
    the SecurityError of the read when it is denied) and leaves the
    state variables and the storage as the first run left them. *)
Theorem loadHistory_twice granted w :
  exists w1 w2,
    loadHistory_effect granted w
    = (w1, if granted then inr tt else inl SecurityError)
    /\ loadHistory_effect granted w1
       = (w2, if granted then inr tt else inl SecurityError)
    /\ app w2 = app w1
    /\ localStorage w2 = localStorage w1
    /\ localStorage w1 = localStorage w.
Proof.
  destruct granted; [| by exists w, w; rewrite !loadHistory_effect_denied].
  change (loadHistory_effect true) with loadHistory.
  rewrite loadHistory_spec.
  destruct (Storage_getItem storage_key (localStorage w)) as [[| ch t] |] eqn:Hs.
  - exists w, w. rewrite loadHistory_spec, Hs. done.
  - destruct (JSON_parse (ch :: t)) as [h |] eqn:Hp;
      do 2 eexists; (split; [reflexivity |]);
      rewrite loadHistory_spec; cbn [localStorage]; rewrite Hs, Hp; done.
  - exists w, w. rewrite loadHistory_spec, Hs. done.
Qed.
